(** * scure-bip39 (src/index.ts): mnemonic codec and seed derivation

    A shallow embedding of [src/index.ts] together with the parts of its
    imported coders ([@scure/base]: [chain], [checksum], [radix2],
    [alphabet]) that the exported functions run through.  The hash
    functions, Unicode normalisation, UTF-8 encoding, PBKDF2 and the random
    byte source are imported primitives and stay abstract (Section
    variables).  [generateMnemonicQBCK] and its helpers are embedded with
    the network fetch and [Math.random] as variables.  Typed arrays are
    read little-endian, as on every platform the package runs on. *)

From Stdlib Require Import ZArith QArith Qround Lqa List String Ascii Bool Lia
  Arith DecimalString.
From Stdlib.Strings Require Import Byte.
Import ListNotations.
Local Open Scope Z_scope.

(* ================================================================== *)
(** * Exceptions and the error monad *)
(* ================================================================== *)

(** One constructor per [throw] site that the modelled code can reach. *)
Inductive error : Type :=
| WrongPositiveInteger        (* assert.number of @noble/hashes *)
| InvalidEntropyStrength      (* TypeError('Invalid entropy'), generateMnemonic *)
| InvalidMnemonicType         (* TypeError('Invalid mnemonic type: ...'), nfkd *)
| InvalidMnemonic             (* Error('Invalid mnemonic'), normalize *)
| ExpectedBytesLength         (* assert.bytes: length not in the list *)
| WordlistExpected2048        (* Error('Worlist: expected array of 2048 strings') *)
| WordlistNonString           (* Error('Wordlist: non-string element: ...') *)
| Uint16ArrayRange            (* RangeError: byte length should be a multiple of 2 *)
| WrongInteger                (* assertNumber of @scure/base *)
| DigitOutsideAlphabet        (* Digit index outside alphabet *)
| AlphabetDecodeInput         (* alphabet.decode input should be array of strings *)
| AlphabetNotString           (* alphabet.decode: not string element *)
| UnknownLetter               (* Unknown letter *)
| Radix2Bits                  (* radix2: bits should be in (0..32] *)
| Radix2CarryOverflow         (* radix2: carry overflow *)
| ConvertWrongFrom            (* convertRadix2: wrong from *)
| ConvertWrongTo              (* convertRadix2: wrong to *)
| ConvertCarryOverflow        (* convertRadix2: carry overflow *)
| ConvertInvalidWord          (* convertRadix2: invalid data word *)
| ExcessPadding               (* Excess padding *)
| NonZeroPadding              (* Non-zero padding *)
| InvalidChecksum.            (* Invalid checksum *)

Inductive result (A : Type) : Type :=
| Ok (a : A)
| Throw (e : error).
Arguments Ok {A} a.
Arguments Throw {A} e.

Definition bind {A B : Type} (c : result A) (k : A -> result B) : result B :=
  match c with
  | Ok a => k a
  | Throw e => Throw e
  end.

Notation "x <- c ;; k" := (bind c (fun x => k))
  (at level 61, c at next level, right associativity).
Notation "c ;;; k" := (bind c (fun _ => k))
  (at level 61, right associativity).

Definition succeeds {A : Type} (c : result A) : bool :=
  match c with Ok _ => true | Throw _ => false end.

(** [arr.map(f)] with a callback that may throw: the first throw wins. *)
Fixpoint mapM {A B : Type} (f : A -> result B) (l : list A) : result (list B) :=
  match l with
  | [] => Ok []
  | x :: t => y <- f x ;; ys <- mapM f t ;; Ok (y :: ys)
  end.

(** The two messages of [getCoder]; the spec calls both InvalidWordlist. *)
Definition is_wordlist_error (e : error) : bool :=
  match e with
  | WordlistExpected2048 | WordlistNonString => true
  | _ => false
  end.

(* ================================================================== *)
(** * JavaScript data *)
(* ================================================================== *)

Module JS.

(** A string is a sequence of UTF-16 code units. *)
Definition jsstring : Type := list N.

Definition lit (s : string) : jsstring :=
  map N_of_ascii (list_ascii_of_string s).

Definition space : N := 32.

Fixpoint jsstring_eqb (a b : jsstring) : bool :=
  match a, b with
  | [], [] => true
  | x :: a', y :: b' => N.eqb x y && jsstring_eqb a' b'
  | _, _ => false
  end.

(** [s.split(sep)] for a one-unit separator: never empty, [''] for ['']. *)
Fixpoint split (sep : N) (s : jsstring) : list jsstring :=
  match s with
  | [] => [[]]
  | c :: rest =>
      if N.eqb c sep then [] :: split sep rest
      else match split sep rest with
           | [] => [[c]]
           | w :: ws => (c :: w) :: ws
           end
  end.

(** The values a wordlist slot or a decoded word can hold. *)
Inductive value : Type :=
| VUndefined
| VNull
| VBool (b : bool)
| VNumber (n : Z)
| VString (s : jsstring).

Definition typeof_string (v : value) : bool :=
  match v with VString _ => true | _ => false end.

(** [a === b] *)
Definition strict_eq (a b : value) : bool :=
  match a, b with
  | VUndefined, VUndefined => true
  | VNull, VNull => true
  | VBool x, VBool y => Bool.eqb x y
  | VNumber x, VNumber y => Z.eqb x y
  | VString x, VString y => jsstring_eqb x y
  | _, _ => false
  end.


(** ToString, as [Array.prototype.join] applies it to an element that is
    neither undefined nor null.  On a Number it is Number::toString in
    radix 10 of a safe integer: the decimal digits, after a minus sign
    when negative.  A Number of larger magnitude is printed by JavaScript
    from the shortest digits that read back as the same double, in
    exponent form from 10^21 on ([1e+21]); that is not modelled, and
    [ToString_exact] marks the values on which this definition is
    JavaScript's. *)
Definition ToString (v : value) : jsstring :=
  match v with
  | VUndefined => lit "undefined"
  | VNull => lit "null"
  | VBool true => lit "true"
  | VBool false => lit "false"
  | VNumber n => lit (NilZero.string_of_int (Z.to_int n))
  | VString s => s
  end.


(** An array: [None] is a hole (an index that is not an own property). *)
Definition array : Type := list (option value).

(** [a[i]] *)
Definition get (a : array) (i : Z) : value :=
  if i <? 0 then VUndefined
  else match nth_error a (Z.to_nat i) with
       | Some (Some v) => v
       | _ => VUndefined
       end.

(** [a.indexOf(v)]: strict equality, holes skipped, -1 when absent. *)
Fixpoint indexOf_from (a : array) (v : value) (k : Z) : Z :=
  match a with
  | [] => -1
  | Some x :: t => if strict_eq x v then k else indexOf_from t v (k + 1)
  | None :: t => indexOf_from t v (k + 1)
  end.

Definition indexOf (a : array) (v : value) : Z := indexOf_from a v 0.

(** [a.forEach(f)] with a callback that may throw: holes are not visited. *)
Fixpoint forEach (f : value -> result unit) (a : array) : result unit :=
  match a with
  | [] => Ok tt
  | Some x :: t => f x ;;; forEach f t
  | None :: t => forEach f t
  end.

(** [vs.join(sep)] on a dense array: undefined and null give ['']. *)
Definition join_item (v : value) : jsstring :=
  match v with
  | VUndefined | VNull => []
  | _ => ToString v
  end.

Fixpoint join (sep : jsstring) (vs : list value) : jsstring :=
  match vs with
  | [] => []
  | [v] => join_item v
  | v :: rest => join_item v ++ sep ++ join sep rest
  end.

(** ** 32-bit integer operators *)

Definition ToUint32 (z : Z) : Z := z mod 2 ^ 32.

Definition ToInt32 (z : Z) : Z :=
  let u := z mod 2 ^ 32 in if u <? 2 ^ 31 then u else u - 2 ^ 32.

(** ToUint32 of a Number that need not be an integer: truncate first. *)
Definition ToUint32Q (q : Q) : Z :=
  ToUint32 (Z.quot (Qnum q) (Zpos (Qden q))).

(** [a << b], [a >> b], [a | b], [a & b], [a >>> 0] *)
Definition shl (a count : Z) : Z :=
  ToInt32 (Z.shiftl (ToInt32 a) (ToUint32 count mod 32)).
Definition sar (a count : Z) : Z :=
  Z.shiftr (ToInt32 a) (ToUint32 count mod 32).
Definition bor (a b : Z) : Z := Z.lor (ToInt32 a) (ToInt32 b).
Definition band (a b : Z) : Z := Z.land (ToInt32 a) (ToInt32 b).
Definition ushr0 (a : Z) : Z := ToUint32 a.

(** The same shifts with a count that is a fractional Number. *)
Definition shlQ (a : Z) (count : Q) : Z :=
  ToInt32 (Z.shiftl (ToInt32 a) (ToUint32Q count mod 32)).
Definition sarQ (a : Z) (count : Q) : Z :=
  Z.shiftr (ToInt32 a) (ToUint32Q count mod 32).

Definition isSafeInteger (n : Z) : bool :=
  (- (2 ^ 53 - 1) <=? n) && (n <=? 2 ^ 53 - 1).

(** ** Typed arrays *)

Definition byte_val (b : byte) : Z := Z.of_N (Byte.to_N b).

(** Storing a Number into a Uint8Array element keeps it modulo 256. *)
Definition to_byte (z : Z) : byte :=
  match Byte.of_N (Z.to_N (z mod 256)) with
  | Some b => b
  | None => x00
  end.

(** A [Uint8Array] is a window on an [ArrayBuffer]; [a.buffer] is the whole
    buffer, whatever the window. *)
Record Uint8Array : Type := mkUint8Array {
  buffer : list byte;
  byteOffset : nat;
  byteLength : nat
}.

Definition elements (a : Uint8Array) : list byte :=
  firstn (byteLength a) (skipn (byteOffset a) (buffer a)).

(** [a.length] *)
Definition length (a : Uint8Array) : nat := List.length (elements a).

(** [new Uint8Array(buffer)], [Uint8Array.from(...)], [new Uint8Array([...])]:
    a window on all of a fresh buffer. *)
Definition Uint8Array_of (bytes : list byte) : Uint8Array :=
  mkUint8Array bytes 0 (List.length bytes).

Definition owns_buffer (a : Uint8Array) : Prop :=
  byteOffset a = 0%nat /\ byteLength a = List.length (buffer a).

(** [Array.from(new Uint16Array(buffer))]: little-endian pairs of bytes; a
    RangeError when the buffer's byte length is odd. *)
Fixpoint u16_elements (bytes : list byte) : list Z :=
  match bytes with
  | lo :: hi :: rest => (byte_val lo + 256 * byte_val hi) :: u16_elements rest
  | _ => []
  end.

Definition Uint16Array_of_buffer (buf : list byte) : result (list Z) :=
  if Nat.even (List.length buf) then Ok (u16_elements buf)
  else Throw Uint16ArrayRange.

(** [new Uint16Array(numbers).buffer]: each number modulo 2^16, low byte
    first. *)
Definition ToUint16 (z : Z) : Z := z mod 2 ^ 16.

Definition u16_bytes (v : Z) : list byte :=
  [to_byte (ToUint16 v mod 256); to_byte (ToUint16 v / 256)].

Definition Uint16Array_buffer (numbers : list Z) : list byte :=
  flat_map u16_bytes numbers.

End JS.

(* ================================================================== *)
(** * The coders of @scure/base used by [getCoder] *)
(* ================================================================== *)

(** [chain], [checksum], [radix2] and [alphabet] are imported from the
    package @scure/base, whose source is not under src/.  The definitions
    below follow sections 4.2 to 4.4 of the specification in the shape the
    package gives them: coders as encode/decode pairs, and the radix
    conversion as a loop over the input with a carry and a bit position. *)
Module Base.

Import JS.

Record Coder (F T : Type) : Type := mkCoder {
  encode : F -> result T;
  decode : T -> result F
}.
Arguments mkCoder {F T} encode decode.
Arguments encode {F T} c x.
Arguments decode {F T} c x.

(** Modelled from the spec: [chain] of @scure/base (section 2, data
    flow): encode runs the coders left to right, decode runs them right to
    left. *)
Definition chain {A B C : Type} (a : Coder A B) (b : Coder B C) : Coder A C :=
  mkCoder
    (fun x => y <- encode a x ;; encode b y)
    (fun z => y <- decode b z ;; decode a y).

Definition assertNumber (n : Z) : result unit :=
  if isSafeInteger n then Ok tt else Throw WrongInteger.

(** Modelled from the spec: [alphabet(letters).encode] of @scure/base
    (section 4.4, lookup by index): each digit is replaced by the entry at
    that index; a digit outside the table throws. *)
Definition alphabet_encode (letters : array) (digits : list Z)
  : result (list value) :=
  mapM (fun i =>
          assertNumber i ;;;
          if (i <? 0) || (i >=? Z.of_nat (List.length letters))
          then Throw DigitOutsideAlphabet
          else Ok (get letters i))
       digits.

(** Modelled from the spec: [alphabet(letters).decode] of @scure/base
    (section 4.4, reverse lookup): each word is replaced by its index in
    the table; a word that is not a string or is absent from the table
    throws. *)
Definition alphabet_decode (letters : array) (input : list value)
  : result (list Z) :=
  match input with
  | first :: _ =>
      if negb (typeof_string first) then Throw AlphabetDecodeInput else Ok tt
  | [] => Ok tt
  end ;;;
  mapM (fun letter =>
          if negb (typeof_string letter) then Throw AlphabetNotString
          else let index := indexOf letters letter in
               if index =? -1 then Throw UnknownLetter else Ok index)
       input.

Definition alphabet (letters : array) : Coder (list Z) (list value) :=
  mkCoder (alphabet_encode letters) (alphabet_decode letters).

Definition radix2carry (from to : Z) : Z := from + (to - Z.gcd from to).

(** [for (; pos >= to; pos -= to) res.push(((carry >> (pos - to)) & mask) >>> 0)].
    [to] is positive when the loop is reached, so [pos] iterations are
    enough; [drain_fuel] shows the loop has ended when the fuel is [pos]. *)
Fixpoint drain (fuel : nat) (carry pos to mask : Z) (res : list Z)
  : Z * list Z :=
  match fuel with
  | O => (pos, res)
  | S fuel' =>
      if pos >=? to
      then drain fuel' carry (pos - to) to mask
             (res ++ [ushr0 (band (sar carry (pos - to)) mask)])
      else (pos, res)
  end.

(** The body of [for (const n of data)], state [(carry, pos, res)]. *)
Fixpoint convert_loop (data : list Z) (from to mask carry pos : Z)
  (res : list Z) : result (Z * Z * list Z) :=
  match data with
  | [] => Ok (carry, pos, res)
  | n :: rest =>
      assertNumber n ;;;
      if n >=? 2 ^ from then Throw ConvertInvalidWord
      else
        let carry := bor (shl carry from) n in
        if pos + from >? 32 then Throw ConvertCarryOverflow
        else
          let pos := pos + from in
          let '(pos, res) := drain (Z.to_nat pos) carry pos to mask res in
          let carry := band carry (2 ^ pos - 1) in
          convert_loop rest from to mask carry pos res
  end.

(** Modelled from the spec: [convertRadix2] of @scure/base (section 4.3):
    the digits of [from] bits, most significant bit first, regrouped into
    digits of [to] bits.  With [padding] the last group is filled with zero
    bits; without it left-over bits must be fewer than [from] and zero. *)
Definition convertRadix2 (data : list Z) (from to : Z) (padding : bool)
  : result (list Z) :=
  if (from <=? 0) || (from >? 32) then Throw ConvertWrongFrom
  else if (to <=? 0) || (to >? 32) then Throw ConvertWrongTo
  else if radix2carry from to >? 32 then Throw ConvertCarryOverflow
  else
    let mask := 2 ^ to - 1 in
    st <- convert_loop data from to mask 0 0 [] ;;
    let '(carry, pos, res) := st in
    let carry := band (shl carry (to - pos)) mask in
    if negb padding && (pos >=? from) then Throw ExcessPadding
    else if negb padding && negb (carry =? 0) then Throw NonZeroPadding
    else if padding && (pos >? 0) then Ok (res ++ [ushr0 carry])
    else Ok res.

(** Modelled from the spec: [radix2(bits, revPadding)] of @scure/base
    (section 4.3).  With [revPadding] encoding is the strict conversion
    from bytes and decoding the padded conversion back to bytes.  Bytes
    travel as [list byte], digits as numbers. *)
Definition radix2 (bits : Z) (revPadding : bool)
  : result (Coder (list byte) (list Z)) :=
  assertNumber bits ;;;
  if (bits <=? 0) || (bits >? 32) then Throw Radix2Bits
  else if (radix2carry 8 bits >? 32) || (radix2carry bits 8 >? 32)
  then Throw Radix2CarryOverflow
  else Ok (mkCoder
        (fun bytes =>
           convertRadix2 (map byte_val bytes) 8 bits (negb revPadding))
        (fun digits =>
           r <- convertRadix2 digits bits 8 revPadding ;;
           Ok (map to_byte r))).

(** [data.slice(0, -len)] and [data.slice(-len)] ([-0] is [0]). *)
Definition slice_until_last (len : nat) (data : list byte) : list byte :=
  if Nat.eqb len 0 then []
  else firstn (List.length data - len) data.

Definition slice_last (len : nat) (data : list byte) : list byte :=
  if Nat.eqb len 0 then data
  else skipn (List.length data - len) data.

(** [for (i < len) if (newChecksum[i] !== oldChecksum[i]) throw]; a missing
    element reads as undefined. *)
Fixpoint same_prefix (len i : nat) (a b : list byte) : bool :=
  match len with
  | O => true
  | S len' =>
      match nth_error a i, nth_error b i with
      | Some x, Some y => Byte.eqb x y && same_prefix len' (S i) a b
      | None, None => same_prefix len' (S i) a b
      | _, _ => false
      end
  end.

(** Modelled from the spec: [checksum(len, fn)] of @scure/base (sections
    4.2 and 4.3): encode appends the first [len] bytes of [fn data];
    decode splits off the last [len] bytes, recomputes [fn] on the rest
    and throws on a mismatch. *)
Definition checksum (len : nat) (fn : list byte -> list byte)
  : Coder (list byte) (list byte) :=
  mkCoder
    (fun data =>
       Ok (data ++ firstn len (firstn len (fn data) ++ repeat x00 len)))
    (fun data =>
       let payload := slice_until_last len data in
       let newChecksum := firstn len (fn payload) in
       let oldChecksum := slice_last len data in
       if same_prefix len 0 newChecksum oldChecksum then Ok payload
       else Throw InvalidChecksum).

End Base.

(* ================================================================== *)
(** * src/index.ts *)
(* ================================================================== *)

(** A settled promise. *)
Inductive Promise (A : Type) : Type :=
| Fulfilled (a : A)
| Rejected (e : error).
Arguments Fulfilled {A} a.
Arguments Rejected {A} e.

(** [string | Uint8Array] *)
Inductive mnemonic : Type :=
| MString (s : JS.jsstring)
| MBytes (a : JS.Uint8Array).

(** The [Input] of @noble/hashes: a string is read as its UTF-8 bytes. *)
Inductive Input : Type :=
| InBytes (b : list byte)
| InString (s : JS.jsstring).

(** What [normalize] returns: [{ nfkd: norm, words }]. *)
Record Normalized : Type := mkNormalized {
  norm_nfkd : JS.jsstring;
  norm_words : list JS.jsstring
}.

Section Bip39.

Import JS Base.

(** Imported primitives. *)
Variable sha256 : list byte -> list byte.
Variable String_normalize_NFKD : jsstring -> jsstring.
Variable TextEncoder_encode : jsstring -> list byte.
Variable Hash : Type.
Variable sha512 : Hash.
Variable PBKDF2 : Hash -> list byte -> list byte -> Z -> Z -> list byte.
Variable PBKDF2_async : Hash -> list byte -> list byte -> Z -> Z
                        -> Promise (list byte).
Variable randomBytes : Z -> list byte.

Definition toBytes (data : Input) : list byte :=
  match data with
  | InBytes b => b
  | InString s => TextEncoder_encode s
  end.

(** [pbkdf2(hash, password, salt, { c, dkLen })] and [pbkdf2Async]. *)
Definition pbkdf2 (hash : Hash) (password salt : Input) (c dkLen : Z)
  : list byte :=
  PBKDF2 hash (toBytes password) (toBytes salt) c dkLen.

Definition pbkdf2Async (hash : Hash) (password salt : Input) (c dkLen : Z)
  : Promise (list byte) :=
  PBKDF2_async hash (toBytes password) (toBytes salt) c dkLen.

(** [assert.number(n)] of @noble/hashes. *)
Definition assert_number (n : Z) : result unit :=
  if negb (isSafeInteger n) || (n <? 0) then Throw WrongPositiveInteger
  else Ok tt.

(** [assert.bytes(b, ...lengths)] on a [Uint8Array]. *)
Definition assert_bytes (b : Uint8Array) (lengths : list nat) : result unit :=
  if existsb (Nat.eqb (JS.length b)) lengths then Ok tt
  else Throw ExpectedBytesLength.

Definition nfkd (str : value) : result jsstring :=
  match str with
  | VString s => Ok (String_normalize_NFKD s)
  | _ => Throw InvalidMnemonicType
  end.

Definition normalize (str : jsstring) : result Normalized :=
  norm <- nfkd (VString str) ;;
  let words := split space norm in
  if negb (existsb (Nat.eqb (List.length words)) [12; 15; 18; 21; 24]%nat)
  then Throw InvalidMnemonic
  else Ok (mkNormalized norm words).

Definition assertEntropy (entropy : Uint8Array) : result unit :=
  assert_bytes entropy [16; 20; 24; 28; 32]%nat.

(** [bitsLeft = 8 - entropy.length / 4], a Number that is fractional when
    the length is not a multiple of 4. *)
Definition bitsLeft (entropy : list byte) : Q :=
  (8 - inject_Z (Z.of_nat (List.length entropy)) / 4)%Q.

(** [sha256(entropy)[0]] as the shift operator reads it: a missing element
    is undefined, which ToInt32 maps to 0. *)
Definition first_byte (digest : list byte) : Z :=
  match digest with
  | b :: _ => byte_val b
  | [] => 0
  end.

Definition calcChecksum (entropy : list byte) : list byte :=
  [to_byte (shlQ (sarQ (first_byte (sha256 entropy)) (bitsLeft entropy))
                 (bitsLeft entropy))].

(** The wordlist parameter is an array in every call of the model, so
    [Array.isArray] holds. *)
Definition Array_isArray (wordlist : array) : bool := true.

Definition getCoder (wordlist : array)
  : result (Coder (list byte) (list value)) :=
  if negb (Array_isArray wordlist)
     || negb (Nat.eqb (List.length wordlist) (2 ^ 11))
     || negb (typeof_string (get wordlist 0))
  then Throw WordlistExpected2048
  else
    forEach (fun i =>
               if negb (typeof_string i) then Throw WordlistNonString
               else Ok tt) wordlist ;;;
    r <- radix2 11 true ;;
    Ok (chain (chain (checksum 1 calcChecksum) r) (alphabet wordlist)).

Definition mnemonicToEntropy (m : mnemonic) (wordlist : array)
  : result Uint8Array :=
  entropy <-
    match m with
    | MString s =>
        n <- normalize s ;;
        coder <- getCoder wordlist ;;
        decode coder (map VString (norm_words n))
    | MBytes a =>
        coder <- getCoder wordlist ;;
        indices <- Uint16Array_of_buffer (buffer a) ;;
        decode coder (map (fun i => get wordlist i) indices)
    end ;;
  let entropy := Uint8Array_of entropy in
  assertEntropy entropy ;;;
  Ok entropy.

Definition entropyToMnemonic (entropy : Uint8Array) (wordlist : array)
  : result Uint8Array :=
  assertEntropy entropy ;;;
  coder <- getCoder wordlist ;;
  words <- encode coder (elements entropy) ;;
  let indices := map (fun word => indexOf wordlist word) words in
  let uInt8ArrayOfMnemonic := Uint8Array_of (Uint16Array_buffer indices) in
  Ok uInt8ArrayOfMnemonic.

Definition generateMnemonic (wordlist : array) (strength : Z)
  : result Uint8Array :=
  assert_number strength ;;;
  if negb (Z.rem strength 32 =? 0) || (strength >? 256)
  then Throw InvalidEntropyStrength
  else entropyToMnemonic (Uint8Array_of (randomBytes (strength / 8))) wordlist.

(** [try { mnemonicToEntropy(...) } catch (e) { return false } return true] *)
Definition validateMnemonic (m : mnemonic) (wordlist : array) : bool :=
  match mnemonicToEntropy m wordlist with
  | Throw _ => false
  | Ok _ => true
  end.

Definition salt (passphrase : jsstring) : result jsstring :=
  nfkd (VString (lit "mnemonic" ++ passphrase)).

Definition encodeMnemonicForSeedDerivation (m : mnemonic) (wordlist : array)
  : result (list byte) :=
  match m with
  | MString s =>
      n <- normalize s ;;
      Ok (TextEncoder_encode (norm_nfkd n))
  | MBytes a =>
      indices <- Uint16Array_of_buffer (buffer a) ;;
      Ok (TextEncoder_encode
            (join (lit " ") (map (fun i => get wordlist i) indices)))
  end.

(** Not an [async] function: a throw of the helper leaves it as a throw,
    not as a rejected promise. *)
Definition mnemonicToSeed (m : mnemonic) (wordlist : array)
  (passphrase : jsstring) : result (Promise (list byte)) :=
  encodedMnemonicUint8Array <- encodeMnemonicForSeedDerivation m wordlist ;;
  s <- salt passphrase ;;
  Ok (pbkdf2Async sha512 (InBytes encodedMnemonicUint8Array) (InString s)
        2048 64).

Definition mnemonicToSeedSync (m : mnemonic) (wordlist : array)
  (passphrase : jsstring) : result (list byte) :=
  encodedMnemonicUint8Array <- encodeMnemonicForSeedDerivation m wordlist ;;
  s <- salt passphrase ;;
  Ok (pbkdf2 sha512 (InBytes encodedMnemonicUint8Array) (InString s) 2048 64).

End Bip39.

Arguments pbkdf2 TextEncoder_encode {Hash} PBKDF2 hash password salt c dkLen.
Arguments pbkdf2Async TextEncoder_encode {Hash} PBKDF2_async hash password salt
  c dkLen.
Arguments mnemonicToSeed String_normalize_NFKD TextEncoder_encode {Hash} sha512
  PBKDF2_async m wordlist passphrase.
Arguments mnemonicToSeedSync String_normalize_NFKD TextEncoder_encode {Hash}
  sha512 PBKDF2 m wordlist passphrase.

(* ================================================================== *)
(** * Vocabulary of the statements *)
(* ================================================================== *)

(** The number a digit sequence denotes in base [2^w], most significant
    digit first. *)
Fixpoint val (w : Z) (ds : list Z) : Z :=
  match ds with
  | [] => 0
  | d :: rest => d * 2 ^ (w * Z.of_nat (List.length rest)) + val w rest
  end.

Definition digit (w d : Z) : Prop := 0 <= d < 2 ^ w.

(** ** Wordlists *)

Definition is_present (slot : option JS.value) : bool :=
  match slot with Some _ => true | None => false end.

Definition is_text (slot : option JS.value) : bool :=
  match slot with Some (JS.VString _) => true | _ => false end.

Definition is_nonempty_text (slot : option JS.value) : bool :=
  match slot with Some (JS.VString (_ :: _)) => true | _ => false end.

Definition slot_eqb (a b : option JS.value) : bool :=
  match a, b with
  | Some x, Some y => JS.strict_eq x y
  | None, None => true
  | _, _ => false
  end.

Fixpoint unique (wordlist : JS.array) : bool :=
  match wordlist with
  | [] => true
  | x :: rest => negb (existsb (slot_eqb x) rest) && unique rest
  end.

(** No holes: every index below the length is an own property. *)
Definition dense (wordlist : JS.array) : bool := forallb is_present wordlist.

(** What [getCoder] asks of a dense array: 2048 entries, all strings. *)
Definition table_of_2048_strings (wordlist : JS.array) : bool :=
  Nat.eqb (List.length wordlist) 2048 && forallb is_text wordlist.

(** The table as the specification words it (section 4.4 and the error
    taxonomy): 2048 entries, all textual, non-empty and present. *)
Definition table_of_2048_nonempty_texts (wordlist : JS.array) : bool :=
  Nat.eqb (List.length wordlist) 2048 && forallb is_nonempty_text wordlist.

(** The wordlist contract of section 6: 2048 unique non-empty strings. *)
Definition valid_wordlist (wordlist : JS.array) : bool :=
  table_of_2048_nonempty_texts wordlist && unique wordlist.

(** The text a slot holds (only read on slots that hold a string). *)
Definition text_of (slot : option JS.value) : JS.jsstring :=
  match slot with Some (JS.VString s) => s | _ => [] end.

Definition text_slot (s : JS.jsstring) : option JS.value :=
  Some (JS.VString s).

Definition valid_entropy_length (n : nat) : bool :=
  existsb (Nat.eqb n) [16; 20; 24; 28; 32]%nat.

Definition valid_word_count (n : nat) : bool :=
  existsb (Nat.eqb n) [12; 15; 18; 21; 24]%nat.

(** ** The checksum as the specification words it (section 4.2) *)

Definition checksum_byte_spec (digest0 : Z) (entropy_len : Z) : Z :=
  let checksumBits := entropy_len / 4 in
  let bitsToZero := 8 - checksumBits in
  Z.shiftl (Z.shiftr digest0 bitsToZero) bitsToZero.

(** ** The coder [getCoder] returns *)

(** The coder [radix2(11, true)] evaluates to. *)
Definition radix2_11 : Base.Coder (list byte) (list Z) :=
  Base.mkCoder
    (fun bytes => Base.convertRadix2 (map JS.byte_val bytes) 8 11 false)
    (fun digits =>
       r <- Base.convertRadix2 digits 11 8 true ;; Ok (map JS.to_byte r)).

Definition bip39_coder (sha256 : list byte -> list byte) (wordlist : JS.array)
  : Base.Coder (list byte) (list JS.value) :=
  Base.chain (Base.chain (Base.checksum 1 (calcChecksum sha256)) radix2_11)
             (Base.alphabet wordlist).

(** What the [forEach] of [getCoder] checks: a visited slot holds a string;
    a hole is not visited. *)
Definition present_is_text (slot : option JS.value) : bool :=
  match slot with
  | Some v => JS.typeof_string v
  | None => true
  end.

(** The wordlists on which [getCoder] returns a coder. *)
Definition getCoder_accepts (wordlist : JS.array) : bool :=
  Nat.eqb (List.length wordlist) 2048
  && JS.typeof_string (JS.get wordlist 0)
  && forallb present_is_text wordlist.

(** The errors that the coders of @scure/base throw. *)
Definition is_coder_error (e : error) : bool :=
  match e with
  | WrongInteger | DigitOutsideAlphabet | AlphabetDecodeInput
  | AlphabetNotString | UnknownLetter | Radix2Bits | Radix2CarryOverflow
  | ConvertWrongFrom | ConvertWrongTo | ConvertCarryOverflow
  | ConvertInvalidWord | ExcessPadding | NonZeroPadding | InvalidChecksum =>
      true
  | _ => false
  end.

(** The inverse of [split]: the words with one separator between
    neighbours. *)
Fixpoint unsplit (sep : N) (words : list JS.jsstring) : JS.jsstring :=
  match words with
  | [] => []
  | [w] => w
  | w :: rest => w ++ sep :: unsplit sep rest
  end.

(** The steps of [mnemonicToEntropy] that follow [normalize] and
    [getCoder]. *)
Definition decode_words (sha256 : list byte -> list byte)
  (wordlist : JS.array) (words : list JS.value) : result JS.Uint8Array :=
  entropy <- Base.decode (bip39_coder sha256 wordlist) words ;;
  let entropy := JS.Uint8Array_of entropy in
  assertEntropy entropy ;;;
  Ok entropy.

(** ** The packed representation of a mnemonic *)

(** The 11-bit word indices of a mnemonic: what [alphabet(wordlist).decode]
    returns on its words.  Read most significant first they are the packed
    bits (entropy, then checksum), [val 11] of them the packed number. *)
Definition mnemonic_indices (String_normalize_NFKD : JS.jsstring -> JS.jsstring)
  (m : mnemonic) (wordlist : JS.array) : result (list Z) :=
  match m with
  | MString s =>
      n <- normalize String_normalize_NFKD s ;;
      Base.alphabet_decode wordlist (map JS.VString (norm_words n))
  | MBytes a =>
      indices <- JS.Uint16Array_of_buffer (JS.buffer a) ;;
      Base.alphabet_decode wordlist (map (fun i => JS.get wordlist i) indices)
  end.

(** The steps of [mnemonicToEntropy] that follow the word lookup. *)
Definition decode_indices (sha256 : list byte -> list byte)
  (indices : list Z) : result JS.Uint8Array :=
  entropy <- Base.decode
               (Base.chain (Base.checksum 1 (calcChecksum sha256)) radix2_11)
               indices ;;
  let entropy := JS.Uint8Array_of entropy in
  assertEntropy entropy ;;;
  Ok entropy.


(** ** Concrete data for the examples *)

(** Stand-ins for the imported primitives, small enough to evaluate. *)
Definition example_sha256 (d : list byte) : list byte :=
  JS.to_byte (fold_right (fun b acc => JS.byte_val b + acc) 150 d)
  :: repeat x00 31.

Definition example_NFKD (s : JS.jsstring) : JS.jsstring := s.

Definition example_utf8 (s : JS.jsstring) : list byte :=
  map (fun u => JS.to_byte (Z.of_N u)) s.

Definition example_PBKDF2 (h : unit) (password s : list byte) (c dkLen : Z)
  : list byte :=
  repeat (JS.to_byte (Z.of_nat (List.length password + List.length s) + c))
         (Z.to_nat dkLen).

Definition example_PBKDF2_async (h : unit) (password s : list byte)
  (c dkLen : Z) : Promise (list byte) :=
  Fulfilled (example_PBKDF2 h password s c dkLen).

(** 2048 distinct words: the decimal numerals "0" to "2047". *)
Definition example_wordlist : JS.array :=
  map (fun i => Some (JS.VString
                        (JS.lit (NilZero.string_of_uint (Nat.to_uint i)))))
      (seq 0 2048).

(** The same table with the empty string as its first word. *)
Definition wordlist_with_empty_word : JS.array :=
  Some (JS.VString []) :: tl example_wordlist.

(** 16 bytes 0x7f; with [example_sha256] the checksum nibble is 8. *)
Definition example_entropy : JS.Uint8Array :=
  JS.Uint8Array_of (repeat (JS.to_byte 127) 16).

Definition example_indices : list Z :=
  [1019; 2015; 1790; 2039; 1983; 1533; 2031; 1919; 1019; 2015; 1790; 2040].

(** [example_indices] with the lowest checksum bit flipped. *)
Definition flipped_indices : list Z :=
  [1019; 2015; 1790; 2039; 1983; 1533; 2031; 1919; 1019; 2015; 1790; 2041].

Definition example_phrase : JS.jsstring :=
  JS.lit "1019 2015 1790 2039 1983 1533 2031 1919 1019 2015 1790 2040".

Definition example_binary : JS.Uint8Array :=
  JS.Uint8Array_of (JS.Uint16Array_buffer example_indices).


(** The first 23 bytes of the 24-byte buffer of [example_binary], as a
    window on that buffer. *)
Definition odd_window_on_even_buffer : JS.Uint8Array :=
  JS.mkUint8Array (JS.buffer example_binary) 0 23.



(* ================================================================== *)
(** * src/index.ts: generateMnemonicQBCK and its helpers *)
(* ================================================================== *)

(** How the promise of an [async] function can be rejected here. *)
Inductive rejection : Type :=
| Thrown (e : error)     (* an exception of the code modelled above *)
| NullMatch              (* TypeError: [match] returned null, [.map] read on it *)
| FetchFailed.           (* fetch, response.json() or data.data.result[0] *)

Inductive outcome (A : Type) : Type :=
| Fulfils (a : A)
| Rejects (r : rejection).
Arguments Fulfils {A} a.
Arguments Rejects {A} r.

Definition of_result {A : Type} (r : result A) : outcome A :=
  match r with
  | Ok a => Fulfils a
  | Throw e => Rejects (Thrown e)
  end.

Module JSText.

Import JS.

(** [s.charAt(i)]: the empty string beyond the end. *)
Definition charAt (s : jsstring) (i : nat) : jsstring :=
  match nth_error s i with
  | Some c => [c]
  | None => []
  end.

(** WhiteSpace and LineTerminator code units, which [parseInt] skips. *)
Definition is_StrWhiteSpaceChar (c : N) : bool :=
  existsb (N.eqb c)
    [9; 10; 11; 12; 13; 32; 160; 5760; 8192; 8193; 8194; 8195; 8196; 8197;
     8198; 8199; 8200; 8201; 8202; 8232; 8233; 8239; 8287; 12288; 65279]%N.

Fixpoint trim_start (s : jsstring) : jsstring :=
  match s with
  | c :: rest => if is_StrWhiteSpaceChar c then trim_start rest else s
  | [] => []
  end.

Definition binary_digit (c : N) : option Z :=
  if N.eqb c 48 then Some 0
  else if N.eqb c 49 then Some 1
  else None.

(** The longest prefix of binary digits, as a number; [acc] is [None]
    while no digit has been read. *)
Fixpoint parse_binary (s : jsstring) (acc : option Z) : option Z :=
  match s with
  | c :: rest =>
      match binary_digit c with
      | Some d =>
          parse_binary rest
            (Some (2 * match acc with Some v => v | None => 0 end + d))
      | None => acc
      end
  | [] => acc
  end.

(** [parseInt(s, 2)]; [None] is NaN.  The value is the exact integer,
    which is the Number returned for up to 53 digits (the callers pass at
    most 8). *)
Definition parseInt_2 (s : jsstring) : option Z :=
  let s := trim_start s in
  let '(sign, s) := match s with
                    | c :: rest =>
                        if N.eqb c 45 then (-1, rest)
                        else if N.eqb c 43 then (1, rest)
                        else (1, s)
                    | [] => (1, s)
                    end in
  match parse_binary s None with
  | Some v => Some (sign * v)
  | None => None
  end.

(** ToInt32 of a Number that may be NaN, and [a ^ b]. *)
Definition ToInt32_number (n : option Z) : Z :=
  match n with
  | Some z => ToInt32 z
  | None => 0
  end.

Definition bxor (a b : option Z) : Z :=
  Z.lxor (ToInt32_number a) (ToInt32_number b).

(** An element stored by [Uint8Array.from]: NaN is stored as 0. *)
Definition ToUint8_number (n : option Z) : byte :=
  match n with
  | Some z => to_byte z
  | None => x00
  end.

(** [.] of a regular expression without flags [s] and [u]: any code unit
    but a line terminator. *)
Definition is_line_terminator (c : N) : bool :=
  existsb (N.eqb c) [10; 13; 8232; 8233]%N.

Definition flush (cur : jsstring) : list jsstring :=
  match cur with
  | [] => []
  | _ => [cur]
  end.

(** The matches of [/(.{1,8})/g] from left to right; [cur] is the match
    being grown (greedy, at most 8 code units, ended by a line
    terminator, which no match contains). *)
Fixpoint match_groups (cur s : jsstring) : list jsstring :=
  match s with
  | [] => flush cur
  | c :: rest =>
      if is_line_terminator c then flush cur ++ match_groups [] rest
      else if Nat.eqb (List.length cur) 8 then cur :: match_groups [c] rest
      else match_groups (cur ++ [c]) rest
  end.

(** [s.match(/(.{1,8})/g)]: null when nothing matches. *)
Definition match_1_8 (s : jsstring) : option (list jsstring) :=
  match match_groups [] s with
  | [] => None
  | groups => Some groups
  end.

(** [Math.round(x)]: the nearest integer, halves upwards. *)
Definition Math_round (x : Q) : Z := Qfloor (x + (1 # 2)).

End JSText.

Section Qbck.

Import JS JSText.

Variable sha256 : list byte -> list byte.

(** [Math_random k] is what the k-th call of [Math.random()] returns. *)
Variable Math_random : nat -> Q.

(** [fetch_first_result url] is [data.data.result[0]] of the reply to
    [url], a string by the function's type; [None] when the request, the
    parsing or the property access fails. *)
Variable fetch_first_result : jsstring -> option jsstring.

Definition getQRNGEntropy (strength : Z) : outcome jsstring :=
  match assert_number strength with
  | Throw e => Rejects (Thrown e)
  | Ok _ =>
      if negb (Z.rem strength 32 =? 0) || (strength >? 256)
      then Rejects (Thrown InvalidEntropyStrength)
      else
        let apiKey := lit "47416dad-5ea0-463b-b2db-37edd4f77277" in
        let apiProvider := lit "qbck" in
        let apiTarget := lit "block" in
        let apiUrlPrefix :=
          lit "https://qrng.qbck.io/" ++ apiKey ++ lit "/" ++ apiProvider
          ++ lit "/" ++ apiTarget ++ lit "/" in
        let numberType := lit "bin" in
        let numberAmount := 1 in
        let numberLength := strength / 8 in
        let apiUrl :=
          apiUrlPrefix ++ numberType ++ lit "?size="
          ++ ToString (VNumber numberAmount) ++ lit "&length="
          ++ ToString (VNumber numberLength) in
        match fetch_first_result apiUrl with
        | Some result0 => Fulfils result0
        | None => Rejects FetchFailed
        end
  end.

(** [for (i = 0; i < n; ++i) result += Math.round(Math.random()).toString()] *)
Definition randomBinary (n : Z) : jsstring :=
  fold_left
    (fun result i =>
       result ++ ToString (VNumber (Math_round (Math_random i))))
    (seq 0 (Z.to_nat n)) [].

Definition binaryToByte (bin : jsstring) : option Z := parseInt_2 bin.

(** The loop of [generateMnemonicQBCK] that builds [bitwiseEntropy]. *)
Definition bitwiseEntropy_of (qbckEntropy localEntropy : jsstring) : jsstring :=
  fold_left
    (fun bitwiseEntropy i =>
       bitwiseEntropy
       ++ ToString (VNumber (bxor (parseInt_2 (charAt qbckEntropy i))
                                  (parseInt_2 (charAt localEntropy i)))))
    (seq 0 (List.length qbckEntropy)) [].

Definition generateMnemonicQBCK (wordlist : array) (strength : Z)
  : outcome Uint8Array :=
  match assert_number strength with
  | Throw e => Rejects (Thrown e)
  | Ok _ =>
      if negb (Z.rem strength 32 =? 0) || (strength >? 256)
      then Rejects (Thrown InvalidEntropyStrength)
      else
        match getQRNGEntropy strength with
        | Rejects r => Rejects r
        | Fulfils qbckEntropy =>
            let localEntropy := randomBinary strength in
            let bitwiseEntropy := bitwiseEntropy_of qbckEntropy localEntropy in
            match match_1_8 bitwiseEntropy with
            | None => Rejects NullMatch
            | Some groups =>
                let entropyBytes := map binaryToByte groups in
                let entropyUint8Array :=
                  Uint8Array_of (map ToUint8_number entropyBytes) in
                of_result (entropyToMnemonic sha256 entropyUint8Array wordlist)
            end
        end
  end.

End Qbck.

(** ** Bits *)

Definition bit_char (b : bool) : N := if b then 49%N else 48%N.

(** Whether a code unit of a string is the digit 1; a missing or other
    code unit counts as 0, as [parseInt] and [^] make it. *)
Definition bit_at (s : JS.jsstring) (i : nat) : bool :=
  match nth_error s i with
  | Some c => N.eqb c 49
  | None => false
  end.

(** The number a sequence of bits denotes, most significant first. *)
Definition bits_value (bits : list bool) : Z :=
  fold_left (fun acc (b : bool) => 2 * acc + (if b then 1 else 0)) bits 0.

(** Eight bits to the byte, most significant first. *)
Fixpoint pack_bits (bits : list bool) : list byte :=
  match bits with
  | b7 :: b6 :: b5 :: b4 :: b3 :: b2 :: b1 :: b0 :: rest =>
      JS.to_byte (bits_value [b7; b6; b5; b4; b3; b2; b1; b0])
      :: pack_bits rest
  | _ => []
  end.

(** The bit the k-th call of [Math.random] contributes. *)
Definition coin (Math_random : nat -> Q) (k : nat) : bool :=
  Qle_bool (1 # 2) (Math_random k).

(** Examples: a random source that alternates, a reply of 128 ones. *)
Definition example_Math_random (k : nat) : Q :=
  if Nat.even k then 1 # 4 else 3 # 4.

Definition example_reply_bits : list bool := repeat true 128.

Definition example_fetch (url : JS.jsstring) : option JS.jsstring :=
  Some (map bit_char example_reply_bits).

(** A fragment of NFKD for the examples: U+00A0 (no-break space) has the
    compatibility decomposition U+0020; the other code units used there
    are ASCII and stay. *)
Definition example_NFKD_nbsp (s : JS.jsstring) : JS.jsstring :=
  map (fun c => if N.eqb c 160 then 32%N else c) s.

(** [example_phrase] with no-break spaces between the words. *)
Definition example_phrase_nbsp : JS.jsstring :=
  map (fun c => if N.eqb c 32 then 160%N else c) example_phrase.

(** [example_entropy]'s bytes as a window in the middle of a larger
    buffer. *)
Definition example_entropy_window : JS.Uint8Array :=
  JS.mkUint8Array (x00 :: repeat (JS.to_byte 127) 16 ++ [x00]) 1 16.




(** A [randomBytes] for the examples. *)
Definition example_randomBytes (n : Z) : list byte :=
  repeat (JS.to_byte 127) (Z.to_nat n).

(* ================================================================== *)
(** * 32-bit operators on operands that fit *)
(* ================================================================== *)

Section JsArith.

Import JS.

Lemma ToInt32_small z : - 2 ^ 31 <= z < 2 ^ 31 -> ToInt32 z = z.
Proof.
  intros H. unfold ToInt32.
  destruct (Z_lt_le_dec z 0) as [Hneg | Hpos].
  - replace (z mod 2 ^ 32) with (z + 2 ^ 32).
    + cbv zeta. destruct (Z.ltb_spec (z + 2 ^ 32) (2 ^ 31)); lia.
    + apply Z.mod_unique with (q := -1); lia.
  - rewrite Z.mod_small by lia. cbv zeta.
    destruct (Z.ltb_spec z (2 ^ 31)); lia.
Qed.

Lemma ToUint32_small z : 0 <= z < 2 ^ 32 -> ToUint32 z = z.
Proof. intros H. unfold ToUint32. apply Z.mod_small; lia. Qed.

Lemma pow2_le_mono a b : 0 <= a <= b -> 2 ^ a <= 2 ^ b.
Proof. intros. apply Z.pow_le_mono_r; lia. Qed.

Lemma pow2_pos a : 0 <= a -> 0 < 2 ^ a.
Proof. intros. apply Z.pow_pos_nonneg; lia. Qed.

Lemma count_small c : 0 <= c < 32 -> ToUint32 c mod 32 = c.
Proof.
  intros H. rewrite ToUint32_small by lia. apply Z.mod_small; lia.
Qed.

Lemma shl_small a c :
  0 <= c < 32 -> 0 <= a -> a * 2 ^ c < 2 ^ 31 -> shl a c = a * 2 ^ c.
Proof.
  intros Hc Ha Hb. unfold shl. rewrite count_small by lia.
  assert (0 < 2 ^ c) by (apply pow2_pos; lia).
  rewrite (ToInt32_small a) by nia.
  rewrite Z.shiftl_mul_pow2 by lia.
  apply ToInt32_small. nia.
Qed.

Lemma sar_small a c :
  0 <= c < 32 -> 0 <= a < 2 ^ 31 -> sar a c = a / 2 ^ c.
Proof.
  intros Hc Ha. unfold sar. rewrite count_small by lia.
  rewrite ToInt32_small by lia. apply Z.shiftr_div_pow2. lia.
Qed.

Lemma band_mask a k :
  0 <= k <= 31 -> 0 <= a < 2 ^ 31 -> band a (2 ^ k - 1) = a mod 2 ^ k.
Proof.
  intros Hk Ha. unfold band.
  assert (0 < 2 ^ k <= 2 ^ 31) by (split; [apply pow2_pos | apply pow2_le_mono]; lia).
  rewrite !ToInt32_small by lia.
  replace (2 ^ k - 1) with (Z.ones k) by (rewrite Z.ones_equiv; lia).
  apply Z.land_ones. lia.
Qed.

Lemma bor_disjoint a n w :
  0 <= w -> 0 <= a -> 0 <= n < 2 ^ w -> a * 2 ^ w + n < 2 ^ 31 ->
  bor (a * 2 ^ w) n = a * 2 ^ w + n.
Proof.
  intros Hw Ha Hn Hb. unfold bor.
  assert (0 < 2 ^ w) by (apply pow2_pos; lia).
  rewrite !ToInt32_small by nia.
  pose proof (Z.add_lor_land (a * 2 ^ w) n) as Hadd.
  enough (Z.land (a * 2 ^ w) n = 0) by lia.
  apply Z.bits_inj'. intros i Hi. rewrite Z.land_spec, Z.bits_0.
  destruct (Z_lt_le_dec i w) as [Hlt | Hge].
  - rewrite Z.mul_pow2_bits_low by lia. reflexivity.
  - destruct (Z.eq_dec n 0) as [-> | Hn0].
    + rewrite Z.bits_0. apply andb_false_r.
    + rewrite (Z.bits_above_log2 n i); [apply andb_false_r | lia |].
      apply Z.log2_lt_pow2; [lia |].
      apply Z.lt_le_trans with (2 ^ w); [lia | apply pow2_le_mono; lia].
Qed.

End JsArith.

(* ================================================================== *)
(** * Digit sequences as numbers *)
(* ================================================================== *)

Section Digits.

Variable w : Z.
Hypothesis w_pos : 0 <= w.

Lemma val_app a b :
  val w (a ++ b) = val w a * 2 ^ (w * Z.of_nat (List.length b)) + val w b.
Proof.
  induction a as [| d a IH]; simpl val.
  - lia.
  - rewrite IH, length_app, Nat2Z.inj_add, Z.mul_add_distr_l, Z.pow_add_r by lia.
    ring.
Qed.

Lemma val_snoc a d : val w (a ++ [d]) = val w a * 2 ^ w + d.
Proof.
  rewrite val_app. simpl. rewrite Z.mul_1_r, Z.mul_0_r. simpl. lia.
Qed.

Lemma val_bound l :
  Forall (digit w) l -> 0 <= val w l < 2 ^ (w * Z.of_nat (List.length l)).
Proof.
  induction 1 as [| d l Hd _ IH]; simpl val.
  - rewrite Z.mul_0_r. simpl. lia.
  - unfold digit in Hd. cbn [List.length]. rewrite Nat2Z.inj_succ.
    replace (w * Z.succ (Z.of_nat (List.length l)))
      with (w + w * Z.of_nat (List.length l)) by lia.
    rewrite Z.pow_add_r by lia.
    assert (0 < 2 ^ (w * Z.of_nat (List.length l))) by (apply pow2_pos; lia).
    nia.
Qed.

Lemma val_inj a : forall b,
  List.length a = List.length b ->
  Forall (digit w) a -> Forall (digit w) b ->
  val w a = val w b -> a = b.
Proof.
  induction a as [| x a IH]; intros [| y b] Hlen Ha Hb Hv; try discriminate.
  - reflexivity.
  - inversion Ha as [| ? ? Hx Ha']; inversion Hb as [| ? ? Hy Hb']; subst.
    injection Hlen as Hlen. simpl val in Hv. rewrite <- Hlen in Hv.
    pose proof (val_bound a Ha') as Ba. pose proof (val_bound b Hb') as Bb.
    rewrite <- Hlen in Bb. unfold digit in Hx, Hy.
    set (P := 2 ^ (w * Z.of_nat (List.length a))) in *.
    assert (x = y) by nia. subst y.
    f_equal. apply IH; auto. lia.
Qed.

End Digits.

(* ================================================================== *)
(** * convertRadix2 *)
(* ================================================================== *)

Section ConvertRadix2.

Import JS Base.

Variables from to : Z.
Hypothesis from_pos : 1 <= from.
Hypothesis to_pos : 1 <= to.
Hypothesis carry_fits : from + to <= 32.

Lemma mod_pow2_split c p :
  0 <= to <= p ->
  (c / 2 ^ (p - to)) mod 2 ^ to * 2 ^ (p - to) + c mod 2 ^ (p - to)
  = c mod 2 ^ p.
Proof.
  intros Hp.
  replace (2 ^ p) with (2 ^ (p - to) * 2 ^ to)
    by (rewrite <- Z.pow_add_r by lia; f_equal; lia).
  rewrite Z.rem_mul_r; [lia | |]; [apply Z.pow_nonzero | apply pow2_pos]; lia.
Qed.

(** The inner loop ends within [pos] iterations, with fewer than [to] bits
    left, and moves whole groups of [to] bits from the carry to [res]. *)
Lemma drain_spec carry :
  0 <= carry < 2 ^ 31 ->
  forall fuel pos res,
  0 <= pos <= 31 -> (Z.to_nat pos <= fuel)%nat ->
  Forall (digit to) res ->
  exists pos' res',
    drain fuel carry pos to (2 ^ to - 1) res = (pos', res') /\
    0 <= pos' < to /\ pos' <= pos /\
    Forall (digit to) res' /\
    Z.of_nat (List.length res') * to + pos'
      = Z.of_nat (List.length res) * to + pos /\
    val to res' * 2 ^ pos' + carry mod 2 ^ pos'
      = val to res * 2 ^ pos + carry mod 2 ^ pos.
Proof.
  intros Hc. induction fuel as [| fuel IH]; intros pos res Hpos Hfuel Hres.
  - exists pos, res. simpl. repeat split; auto; lia.
  - simpl. destruct (Z.geb_spec pos to) as [Hge | Hlt].
    + set (d := ushr0 (band (sar carry (pos - to)) (2 ^ to - 1))).
      assert (Hd : d = (carry / 2 ^ (pos - to)) mod 2 ^ to).
      { unfold d. rewrite sar_small by lia.
        assert (0 < 2 ^ (pos - to)) by (apply pow2_pos; lia).
        assert (0 <= carry / 2 ^ (pos - to) < 2 ^ 31).
        { split; [apply Z.div_pos; lia |].
          apply Z.le_lt_trans with carry; [| lia].
          apply Z.div_le_upper_bound; nia. }
        rewrite band_mask by lia.
        unfold ushr0. apply ToUint32_small.
        pose proof (Z.mod_pos_bound (carry / 2 ^ (pos - to)) (2 ^ to)
                      (pow2_pos to ltac:(lia))).
        assert (2 ^ to <= 2 ^ 32) by (apply pow2_le_mono; lia). lia. }
      assert (Hdig : digit to d).
      { rewrite Hd. apply Z.mod_pos_bound. apply pow2_pos; lia. }
      destruct (IH (pos - to) (res ++ [d])) as (pos' & res' & E & B & L & F & N & V).
      * lia.
      * lia.
      * apply Forall_app; split; auto.
      * exists pos', res'. split; [exact E |].
        repeat split; try lia; auto.
        -- rewrite N, length_app, Nat2Z.inj_add. simpl. lia.
        -- rewrite V, val_snoc by lia. rewrite <- (mod_pow2_split carry pos) by lia.
           rewrite <- Hd.
           replace (2 ^ pos) with (2 ^ to * 2 ^ (pos - to))
             by (rewrite <- Z.pow_add_r by lia; f_equal; lia).
           ring.
    + exists pos, res. repeat split; auto; lia.
Qed.

(** The outer loop keeps: the bits read so far are the digits of [res]
    followed by the [pos] low bits held in [carry]. *)
Lemma convert_loop_spec : forall data carry pos res,
  Forall (digit from) data ->
  0 <= pos < to -> 0 <= carry < 2 ^ pos -> Forall (digit to) res ->
  exists carry' pos' res',
    convert_loop data from to (2 ^ to - 1) carry pos res
      = Ok (carry', pos', res') /\
    0 <= pos' < to /\ 0 <= carry' < 2 ^ pos' /\ Forall (digit to) res' /\
    Z.of_nat (List.length res') * to + pos'
      = Z.of_nat (List.length res) * to + pos
        + from * Z.of_nat (List.length data) /\
    val to res' * 2 ^ pos' + carry'
      = (val to res * 2 ^ pos + carry)
          * 2 ^ (from * Z.of_nat (List.length data))
        + val from data.
Proof.
  induction data as [| n rest IH]; intros carry pos res Hdata Hpos Hcarry Hres.
  - exists carry, pos, res. simpl. rewrite Z.mul_0_r. simpl.
    repeat split; auto; lia.
  - inversion Hdata as [| ? ? Hn Hrest]; subst. unfold digit in Hn.
    assert (P31 : 2 ^ (pos + from) <= 2 ^ 31) by (apply pow2_le_mono; lia).
    assert (Pf : 0 < 2 ^ from) by (apply pow2_pos; lia).
    assert (Pp : 0 < 2 ^ pos) by (apply pow2_pos; lia).
    assert (Padd : 2 ^ (pos + from) = 2 ^ pos * 2 ^ from)
      by (apply Z.pow_add_r; lia).
    assert (Pf31 : 2 ^ from <= 2 ^ 31) by (apply pow2_le_mono; lia).
    cbn [convert_loop]. unfold assertNumber, isSafeInteger.
    replace ((- (2 ^ 53 - 1) <=? n) && (n <=? 2 ^ 53 - 1)) with true
      by (symmetry; apply andb_true_intro; split; apply Z.leb_le; lia).
    cbn [bind].
    destruct (Z.geb_spec n (2 ^ from)) as [Hbad | _]; [lia |].
    rewrite shl_small by nia.
    rewrite bor_disjoint by nia.
    destruct (Z.gtb_spec (pos + from) 32) as [Hbad | _]; [lia |].
    set (carry1 := carry * 2 ^ from + n).
    assert (Hc1 : 0 <= carry1 < 2 ^ (pos + from)) by (unfold carry1; nia).
    destruct (drain_spec carry1 ltac:(lia) (Z.to_nat (pos + from)) (pos + from)
                res ltac:(lia) ltac:(lia) Hres)
      as (pos2 & res2 & E & B & L & F & N & V).
    rewrite E.
    assert (P2 : 0 < 2 ^ pos2) by (apply pow2_pos; lia).
    assert (P2' : 2 ^ pos2 <= 2 ^ 31) by (apply pow2_le_mono; lia).
    rewrite band_mask by lia.
    destruct (IH (carry1 mod 2 ^ pos2) pos2 res2 Hrest B
                (Z.mod_pos_bound carry1 (2 ^ pos2) P2) F)
      as (carry' & pos' & res' & E' & B' & C' & F' & N' & V').
    exists carry', pos', res'. split; [exact E' |].
    repeat split; try lia; auto.
    + rewrite N', N. cbn [List.length]. lia.
    + rewrite V', V. rewrite (Z.mod_small carry1 (2 ^ (pos + from))) by lia.
      unfold carry1. simpl val. cbn [List.length]. rewrite Nat2Z.inj_succ.
      replace (from * Z.succ (Z.of_nat (List.length rest)))
        with (from + from * Z.of_nat (List.length rest)) by lia.
      rewrite (Z.pow_add_r 2 from (from * Z.of_nat (List.length rest))) by lia.
      rewrite Padd. ring.
Qed.

Lemma convertRadix2_guards :
  (from <=? 0) || (from >? 32) = false /\
  (to <=? 0) || (to >? 32) = false /\
  (radix2carry from to >? 32) = false.
Proof.
  pose proof (Z.gcd_nonneg from to). unfold radix2carry.
  destruct (Z.leb_spec from 0); [lia |].
  destruct (Z.gtb_spec from 32); [lia |].
  destruct (Z.leb_spec to 0); [lia |].
  destruct (Z.gtb_spec to 32); [lia |].
  destruct (Z.gtb_spec (from + (to - Z.gcd from to)) 32); [lia |].
  repeat split.
Qed.

Lemma final_carry carry pos :
  0 <= pos < to -> 0 <= carry < 2 ^ pos ->
  band (shl carry (to - pos)) (2 ^ to - 1) = carry * 2 ^ (to - pos).
Proof.
  intros Hpos Hc.
  assert (0 < 2 ^ (to - pos)) by (apply pow2_pos; lia).
  assert (2 ^ to = 2 ^ pos * 2 ^ (to - pos))
    by (rewrite <- Z.pow_add_r by lia; f_equal; lia).
  assert (2 ^ to <= 2 ^ 31) by (apply pow2_le_mono; lia).
  rewrite shl_small by nia. rewrite band_mask by nia.
  apply Z.mod_small. nia.
Qed.

(** With padding the conversion always succeeds: the output holds the
    input bits followed by [pad] zero bits, [pad < to]. *)
Lemma convertRadix2_padding data :
  Forall (digit from) data ->
  exists out pad,
    convertRadix2 data from to true = Ok out /\
    Forall (digit to) out /\ 0 <= pad < to /\
    Z.of_nat (List.length out) * to
      = from * Z.of_nat (List.length data) + pad /\
    val to out = val from data * 2 ^ pad.
Proof.
  intros Hdata. unfold convertRadix2.
  destruct convertRadix2_guards as (-> & -> & ->).
  destruct (convert_loop_spec data 0 0 [] Hdata ltac:(lia) ltac:(simpl; lia)
              (Forall_nil _))
    as (carry & pos & res & E & B & C & F & N & V).
  rewrite E. cbn [bind]. cbn [negb andb].
  assert (V' : val to res * 2 ^ pos + carry = val from data)
    by (rewrite V; simpl val; ring).
  clear V. simpl List.length in N.
  rewrite final_carry by lia.
  destruct (Z.gtb_spec pos 0) as [Hp | Hp].
  - exists (res ++ [ushr0 (carry * 2 ^ (to - pos))]), (to - pos).
    assert (0 < 2 ^ (to - pos)) by (apply pow2_pos; lia).
    assert (2 ^ to = 2 ^ pos * 2 ^ (to - pos))
      by (rewrite <- Z.pow_add_r by lia; f_equal; lia).
    assert (2 ^ to <= 2 ^ 32) by (apply pow2_le_mono; lia).
    unfold ushr0. rewrite ToUint32_small by nia.
    split; [reflexivity |]. repeat split; try lia.
    + apply Forall_app; split; auto. constructor; [| constructor].
      unfold digit. nia.
    + rewrite length_app, Nat2Z.inj_add. simpl. lia.
    + rewrite val_snoc by lia. rewrite <- V'.
      replace (2 ^ to) with (2 ^ pos * 2 ^ (to - pos)). ring.
  - exists res, 0. assert (pos = 0) by lia. subst pos.
    simpl in C. assert (carry = 0) by lia. subst carry.
    split; [reflexivity |]. repeat split; auto; lia.
Qed.

(** Without padding, a result means that the bits not covered by whole
    output digits were fewer than [from] and all zero. *)
Lemma convertRadix2_nopadding data out :
  Forall (digit from) data ->
  convertRadix2 data from to false = Ok out ->
  exists pos,
    0 <= pos < from /\ pos < to /\ Forall (digit to) out /\
    Z.of_nat (List.length out) * to + pos
      = from * Z.of_nat (List.length data) /\
    val to out * 2 ^ pos = val from data.
Proof.
  intros Hdata. unfold convertRadix2.
  destruct convertRadix2_guards as (-> & -> & ->).
  destruct (convert_loop_spec data 0 0 [] Hdata ltac:(lia) ltac:(simpl; lia)
              (Forall_nil _))
    as (carry & pos & res & E & B & C & F & N & V).
  rewrite E. cbn [bind]. cbn [negb andb].
  assert (V' : val to res * 2 ^ pos + carry = val from data)
    by (rewrite V; simpl val; ring).
  clear V. simpl List.length in N.
  rewrite final_carry by lia.
  destruct (Z.geb_spec pos from) as [Hp | Hp]; [discriminate |].
  destruct (Z.eqb_spec (carry * 2 ^ (to - pos)) 0) as [Hz | Hz];
    [| discriminate].
  cbn [negb]. intros H. injection H as <-.
  assert (0 < 2 ^ (to - pos)) by (apply pow2_pos; lia).
  assert (carry = 0) by nia. subst carry.
  exists pos. repeat split; auto; lia.
Qed.

Lemma convertRadix2_nopadding_ok data :
  Forall (digit from) data ->
  (from * Z.of_nat (List.length data)) mod to < from ->
  val from data mod 2 ^ ((from * Z.of_nat (List.length data)) mod to) = 0 ->
  exists out, convertRadix2 data from to false = Ok out.
Proof.
  intros Hdata Hrem Hzero. unfold convertRadix2.
  destruct convertRadix2_guards as (-> & -> & ->).
  destruct (convert_loop_spec data 0 0 [] Hdata ltac:(lia) ltac:(simpl; lia)
              (Forall_nil _))
    as (carry & pos & res & E & B & C & F & N & V).
  rewrite E. cbn [bind]. cbn [negb andb].
  assert (V' : val to res * 2 ^ pos + carry = val from data)
    by (rewrite V; simpl val; ring).
  clear V. simpl List.length in N.
  rewrite final_carry by lia.
  assert (Hpos : pos = (from * Z.of_nat (List.length data)) mod to).
  { apply Z.mod_unique with (q := Z.of_nat (List.length res)); lia. }
  rewrite <- Hpos in Hrem, Hzero.
  assert (Hc : carry = val from data mod 2 ^ pos).
  { apply Z.mod_unique with (q := val to res); lia. }
  assert (Hc0 : carry = 0) by lia. rewrite Hc0.
  destruct (Z.geb_spec pos from) as [Hp | Hp]; [lia |].
  rewrite Z.mul_0_l. simpl. eexists; reflexivity.
Qed.

End ConvertRadix2.

(* ================================================================== *)
(** * Bytes, 16-bit indices and wordlist lookup *)
(* ================================================================== *)

Section Data.

Import JS.

Lemma byte_val_range b : 0 <= byte_val b < 256.
Proof.
  unfold byte_val. pose proof (Byte.to_N_bounded b). lia.
Qed.

Lemma to_byte_val b : to_byte (byte_val b) = b.
Proof.
  unfold to_byte. rewrite Z.mod_small by apply byte_val_range.
  unfold byte_val. rewrite N2Z.id, Byte.of_to_N. reflexivity.
Qed.

Lemma byte_val_to_byte z : byte_val (to_byte z) = z mod 256.
Proof.
  unfold to_byte, byte_val.
  pose proof (Z.mod_pos_bound z 256 ltac:(lia)) as Hb.
  destruct (Byte.of_N (Z.to_N (z mod 256))) as [b |] eqn:E.
  - apply Byte.to_of_N in E. rewrite E. lia.
  - apply Byte.of_N_None_iff in E. lia.
Qed.

Lemma byte_val_inj a b : byte_val a = byte_val b -> a = b.
Proof.
  intros H. rewrite <- (to_byte_val a), <- (to_byte_val b), H. reflexivity.
Qed.

Lemma map_to_byte_val l : map to_byte (map byte_val l) = l.
Proof.
  induction l as [| b l IH]; simpl; [| rewrite to_byte_val, IH]; reflexivity.
Qed.

Lemma bytes_are_digits l : Forall (digit 8) (map byte_val l).
Proof.
  induction l; simpl; constructor; auto. apply byte_val_range.
Qed.

Lemma elements_of l : elements (Uint8Array_of l) = l.
Proof.
  unfold elements, Uint8Array_of. simpl. apply firstn_all.
Qed.

Lemma length_of l : JS.length (Uint8Array_of l) = List.length l.
Proof. unfold JS.length. rewrite elements_of. reflexivity. Qed.

Lemma owns_buffer_elements a : owns_buffer a -> elements a = buffer a.
Proof.
  intros [Ho Hl]. unfold elements. rewrite Ho, Hl. simpl. apply firstn_all.
Qed.

(** *** Uint16Array *)

Lemma u16_bytes_length numbers :
  List.length (Uint16Array_buffer numbers) = (2 * List.length numbers)%nat.
Proof.
  unfold Uint16Array_buffer.
  induction numbers as [| v l IH]; [reflexivity |].
  cbn [flat_map u16_bytes app List.length]. rewrite IH. lia.
Qed.

Lemma u16_elements_buffer numbers :
  Forall (digit 16) numbers ->
  u16_elements (Uint16Array_buffer numbers) = numbers.
Proof.
  induction 1 as [| v l Hv _ IH]; [reflexivity |].
  unfold Uint16Array_buffer in *. cbn [flat_map u16_bytes app u16_elements].
  rewrite IH. f_equal. unfold digit in Hv.
  rewrite !byte_val_to_byte. unfold ToUint16.
  rewrite (Z.mod_small v (2 ^ 16)) by lia.
  rewrite Z.mod_mod by lia.
  rewrite (Z.mod_small (v / 256)).
  - pose proof (Z.div_mod v 256). lia.
  - split; [apply Z.div_pos; lia | apply Z.div_lt_upper_bound; lia].
Qed.

Lemma Uint16Array_roundtrip numbers :
  Forall (digit 16) numbers ->
  Uint16Array_of_buffer (Uint16Array_buffer numbers) = Ok numbers.
Proof.
  intros H. unfold Uint16Array_of_buffer.
  rewrite u16_bytes_length, Nat.even_mul. simpl.
  rewrite u16_elements_buffer by exact H. reflexivity.
Qed.

Lemma Uint16Array_odd buf :
  Nat.odd (List.length buf) = true ->
  Uint16Array_of_buffer buf = Throw Uint16ArrayRange.
Proof.
  intros H. unfold Uint16Array_of_buffer.
  rewrite <- Nat.negb_odd, H. reflexivity.
Qed.

(** *** Strings and wordlists *)

Lemma jsstring_eqb_eq a : forall b, jsstring_eqb a b = true <-> a = b.
Proof.
  induction a as [| x a IH]; intros [| y b]; simpl; split;
    try discriminate; try reflexivity; intros H.
  - apply andb_prop in H as [H1 H2]. apply N.eqb_eq in H1.
    apply IH in H2. congruence.
  - injection H as -> ->. rewrite N.eqb_refl. simpl. apply IH. reflexivity.
Qed.

Lemma texts_of_wordlist wordlist :
  forallb is_text wordlist = true ->
  wordlist = map text_slot (map text_of wordlist).
Proof.
  induction wordlist as [| slot l IH]; simpl; [reflexivity |].
  intros H. apply andb_prop in H as [H1 H2].
  rewrite <- IH by exact H2. f_equal.
  destruct slot as [[| | | |] |]; try discriminate. reflexivity.
Qed.

Lemma existsb_slot_eqb s texts :
  existsb (slot_eqb (text_slot s)) (map text_slot texts) = true <-> In s texts.
Proof.
  induction texts as [| t l IH]; simpl; [split; [discriminate | tauto] |].
  rewrite orb_true_iff, IH, jsstring_eqb_eq. split; intros [H | H]; auto.
Qed.

Lemma unique_NoDup texts :
  unique (map text_slot texts) = true -> NoDup texts.
Proof.
  induction texts as [| t l IH]; simpl; intros H; constructor.
  - apply andb_prop in H as [H _]. apply negb_true_iff in H. intros Hin.
    apply existsb_slot_eqb in Hin. congruence.
  - apply IH. apply andb_prop in H as [_ H]. exact H.
Qed.

Lemma get_text texts i :
  (i < List.length texts)%nat ->
  get (map text_slot texts) (Z.of_nat i) = VString (nth i texts []).
Proof.
  intros Hi. unfold get.
  destruct (Z.ltb_spec (Z.of_nat i) 0); [lia |].
  rewrite Nat2Z.id, nth_error_map.
  rewrite (nth_error_nth' texts [] Hi). reflexivity.
Qed.

Lemma indexOf_from_text texts : forall i k,
  NoDup texts -> (i < List.length texts)%nat ->
  indexOf_from (map text_slot texts) (VString (nth i texts [])) k
  = k + Z.of_nat i.
Proof.
  induction texts as [| t l IH]; intros i k Hnd Hi; [simpl in Hi; lia |].
  inversion Hnd as [| ? ? Hnotin Hnd']; subst.
  destruct i as [| i]; simpl.
  - replace (jsstring_eqb t t) with true
      by (symmetry; apply jsstring_eqb_eq; reflexivity). lia.
  - destruct (jsstring_eqb t (nth i l [])) eqn:E.
    + apply jsstring_eqb_eq in E. exfalso. apply Hnotin. rewrite E.
      apply nth_In. simpl in Hi. lia.
    + rewrite IH by (auto; simpl in Hi; lia). lia.
Qed.

Lemma indexOf_from_range a v : forall k,
  indexOf_from a v k = -1 \/
  k <= indexOf_from a v k < k + Z.of_nat (List.length a).
Proof.
  induction a as [| slot a IH]; intros k; simpl; [auto |].
  destruct slot as [x |].
  - destruct (strict_eq x v); [right; lia |].
    destruct (IH (k + 1)); [auto | right; lia].
  - destruct (IH (k + 1)); [auto | right; lia].
Qed.

End Data.

(* ================================================================== *)
(** * calcChecksum *)
(* ================================================================== *)

Section Checksum.

Import JS Base.

Variable sha256 : list byte -> list byte.

Lemma valid_entropy_length_cases n :
  valid_entropy_length n = true ->
  n = 16%nat \/ n = 20%nat \/ n = 24%nat \/ n = 28%nat \/ n = 32%nat.
Proof.
  unfold valid_entropy_length. cbn [existsb].
  rewrite !orb_true_iff, !Nat.eqb_eq. intuition (auto; discriminate).
Qed.

Lemma valid_word_count_cases n :
  valid_word_count n = true ->
  n = 12%nat \/ n = 15%nat \/ n = 18%nat \/ n = 21%nat \/ n = 24%nat.
Proof.
  unfold valid_word_count. cbn [existsb].
  rewrite !orb_true_iff, !Nat.eqb_eq. intuition (auto; discriminate).
Qed.

Lemma first_byte_range digest : 0 <= first_byte digest < 256.
Proof.
  destruct digest; simpl; [lia | apply byte_val_range].
Qed.

Lemma shift_out_in h s :
  0 <= s -> Z.shiftl (Z.shiftr h s) s = h - h mod 2 ^ s.
Proof.
  intros Hs. rewrite Z.shiftl_mul_pow2, Z.shiftr_div_pow2 by lia.
  pose proof (Z.div_mod h (2 ^ s) ltac:(apply Z.pow_nonzero; lia)). lia.
Qed.

(** The shift count the engine derives from [bitsLeft]. *)
Lemma bitsLeft_count entropy :
  ToUint32Q (bitsLeft entropy) mod 32
  = Z.quot (32 - Z.of_nat (List.length entropy)) 4 mod 32.
Proof.
  assert (Hnum : Qnum (bitsLeft entropy) = 32 - Z.of_nat (List.length entropy)).
  { unfold bitsLeft.
    cbv [Qminus Qplus Qopp Qdiv Qmult Qinv inject_Z Qnum Qden].
    cbn [Pos.mul]. lia. }
  assert (Hden : Qden (bitsLeft entropy) = 4%positive) by reflexivity.
  unfold ToUint32Q, ToUint32. rewrite Hnum, Hden.
  apply Z.mod_mod_divide. exists (2 ^ 27). reflexivity.
Qed.

Lemma bitsLeft_count_valid entropy :
  valid_entropy_length (List.length entropy) = true ->
  ToUint32Q (bitsLeft entropy) mod 32
  = 8 - Z.of_nat (List.length entropy) / 4.
Proof.
  intros H. rewrite bitsLeft_count.
  apply valid_entropy_length_cases in H.
  destruct H as [H | [H | [H | [H | H]]]]; rewrite H; reflexivity.
Qed.

(** On an entropy of valid length nothing wraps: the byte is the hash's
    first byte with its [8 - L/4] low bits cleared. *)
Lemma calcChecksum_valid entropy :
  valid_entropy_length (List.length entropy) = true ->
  let s := 8 - Z.of_nat (List.length entropy) / 4 in
  let h := first_byte (sha256 entropy) in
  calcChecksum sha256 entropy = [to_byte (h - h mod 2 ^ s)] /\
  0 <= s <= 4 /\
  0 <= h - h mod 2 ^ s < 256 /\
  (h - h mod 2 ^ s) mod 2 ^ s = 0.
Proof.
  intros Hvalid. cbv zeta.
  pose proof (first_byte_range (sha256 entropy)) as Hh.
  pose proof (bitsLeft_count_valid entropy Hvalid) as Hcount.
  assert (Hs : 0 <= 8 - Z.of_nat (List.length entropy) / 4 <= 4).
  { apply valid_entropy_length_cases in Hvalid.
    destruct Hvalid as [H | [H | [H | [H | H]]]]; rewrite H; simpl; lia. }
  unfold calcChecksum, shlQ, sarQ. rewrite Hcount. clear Hcount.
  generalize dependent (first_byte (sha256 entropy)). intros h Hh.
  generalize dependent (8 - Z.of_nat (List.length entropy) / 4). intros s Hs.
  assert (Hp : 0 < 2 ^ s) by (apply pow2_pos; lia).
  pose proof (Z.mod_pos_bound h (2 ^ s) Hp) as Hm.
  assert (Hz : (h - h mod 2 ^ s) mod 2 ^ s = 0).
  { rewrite Zminus_mod, Z.mod_mod, Z.sub_diag by lia. apply Z.mod_0_l. lia. }
  assert (Hsr : 0 <= Z.shiftr h s <= h).
  { rewrite Z.shiftr_div_pow2 by lia. split; [apply Z.div_pos; lia |].
    apply Z.div_le_upper_bound; nia. }
  pose proof (Z.mod_le h (2 ^ s) ltac:(lia) Hp) as Hle.
  assert (Hlow : 0 <= h - h mod 2 ^ s < 256) by (clear - Hh Hm Hle; lia).
  split; [| auto].
  rewrite (ToInt32_small h) by (clear - Hh; lia).
  rewrite (ToInt32_small (Z.shiftr h s)) by (clear - Hh Hsr; lia).
  rewrite shift_out_in by lia.
  rewrite ToInt32_small by (clear - Hlow; lia). reflexivity.
Qed.

End Checksum.

(* ================================================================== *)
(** * getCoder and the coder chain *)
(* ================================================================== *)

Section Codec.

Import JS Base.

Variable sha256 : list byte -> list byte.

Lemma radix2_11_true : radix2 11 true = Ok radix2_11.
Proof. reflexivity. Qed.

Lemma forEach_text wordlist :
  forEach (fun i => if negb (typeof_string i) then Throw WordlistNonString
                    else Ok tt) wordlist
  = if forallb present_is_text wordlist then Ok tt
    else Throw WordlistNonString.
Proof.
  induction wordlist as [| [v |] l IH]; simpl; auto.
  destruct (typeof_string v); simpl; auto.
Qed.

(** [getCoder] either returns the chain of the three coders or throws one
    of its two wordlist errors. *)
Lemma getCoder_cases wordlist :
  (getCoder_accepts wordlist = true /\
   getCoder sha256 wordlist = Ok (bip39_coder sha256 wordlist)) \/
  (getCoder_accepts wordlist = false /\
   exists e, getCoder sha256 wordlist = Throw e /\ is_wordlist_error e = true).
Proof.
  unfold getCoder, getCoder_accepts, Array_isArray.
  change (2 ^ 11)%nat with 2048%nat. cbn [negb orb].
  destruct (Nat.eqb (List.length wordlist) 2048); cbn [negb orb andb];
    [| right; split; [reflexivity | eexists; split; reflexivity]].
  destruct (typeof_string (get wordlist 0)); cbn [negb orb andb];
    [| right; split; [reflexivity | eexists; split; reflexivity]].
  rewrite forEach_text, radix2_11_true.
  destruct (forallb present_is_text wordlist); cbn [bind].
  - left. split; reflexivity.
  - right. split; [reflexivity | eexists; split; reflexivity].
Qed.

Lemma getCoder_accepted wordlist :
  getCoder_accepts wordlist = true ->
  getCoder sha256 wordlist = Ok (bip39_coder sha256 wordlist).
Proof.
  intros H. destruct (getCoder_cases wordlist) as [[_ E] | [E _]]; congruence.
Qed.

Lemma getCoder_rejected wordlist :
  getCoder_accepts wordlist = false ->
  exists e, getCoder sha256 wordlist = Throw e /\ is_wordlist_error e = true.
Proof.
  intros H. destruct (getCoder_cases wordlist) as [[E _] | [_ E]];
    [congruence | exact E].
Qed.

Lemma is_text_present_is_text slot : is_text slot = true -> present_is_text slot = true.
Proof. destruct slot as [[| | | |] |]; simpl; auto. Qed.

(** On an array without holes the acceptance test is: 2048 strings. *)
Lemma getCoder_accepts_dense wordlist :
  dense wordlist = true ->
  getCoder_accepts wordlist = table_of_2048_strings wordlist.
Proof.
  intros Hd. unfold getCoder_accepts, table_of_2048_strings.
  destruct (Nat.eqb_spec (List.length wordlist) 2048) as [Hlen | Hlen];
    [| reflexivity].
  cbn [andb].
  assert (Hsame : forallb present_is_text wordlist = forallb is_text wordlist).
  { clear Hlen. induction wordlist as [| [v |] l IH]; simpl in *;
      try discriminate; auto.
    rewrite IH by exact Hd. reflexivity. }
  rewrite Hsame.
  destruct wordlist as [| [v |] l]; try discriminate.
  simpl. unfold get. simpl. destruct v; reflexivity.
Qed.

Lemma table_of_2048_strings_accepted wordlist :
  table_of_2048_strings wordlist = true -> getCoder_accepts wordlist = true.
Proof.
  intros H. rewrite getCoder_accepts_dense; [exact H |].
  unfold table_of_2048_strings in H. apply andb_prop in H as [_ H].
  unfold dense. rewrite forallb_forall in *. intros x Hx.
  specialize (H x Hx). destruct x; [reflexivity | discriminate].
Qed.

Lemma valid_wordlist_texts wordlist :
  valid_wordlist wordlist = true ->
  exists texts,
    wordlist = map text_slot texts /\ NoDup texts /\
    List.length texts = 2048%nat /\
    table_of_2048_strings wordlist = true.
Proof.
  unfold valid_wordlist, table_of_2048_nonempty_texts.
  intros H. apply andb_prop in H as [H Hu]. apply andb_prop in H as [Hl Ht].
  assert (Ht' : forallb is_text wordlist = true).
  { rewrite forallb_forall in *. intros x Hx. specialize (Ht x Hx).
    destruct x as [[| | | | [|]] |]; try discriminate; reflexivity. }
  exists (map text_of wordlist).
  pose proof (texts_of_wordlist wordlist Ht') as E.
  split; [exact E |]. split; [| split].
  - apply unique_NoDup. rewrite <- E. exact Hu.
  - rewrite length_map. apply Nat.eqb_eq. exact Hl.
  - unfold table_of_2048_strings. rewrite Hl, Ht'. reflexivity.
Qed.

(** *** alphabet *)

Lemma assertNumber_digit w d :
  0 <= w <= 32 -> digit w d -> assertNumber d = Ok tt.
Proof.
  intros Hw [H0 H1]. unfold assertNumber, isSafeInteger.
  assert (2 ^ w <= 2 ^ 32) by (apply pow2_le_mono; lia).
  destruct (Z.leb_spec (- (2 ^ 53 - 1)) d); [| lia].
  destruct (Z.leb_spec d (2 ^ 53 - 1)); [reflexivity | lia].
Qed.

Lemma alphabet_encode_ok letters digits :
  List.length letters = 2048%nat -> Forall (digit 11) digits ->
  alphabet_encode letters digits = Ok (map (get letters) digits).
Proof.
  intros Hlen. unfold alphabet_encode.
  induction 1 as [| d l Hd _ IH]; [reflexivity |].
  cbn [mapM map]. rewrite (assertNumber_digit 11 d) by (auto; lia).
  cbn [bind]. unfold digit in Hd.
  destruct (Z.ltb_spec d 0); [lia |].
  destruct (Z.geb_spec d (Z.of_nat (List.length letters))); [lia |].
  cbn [orb bind]. rewrite IH. reflexivity.
Qed.

Section Texts.

Variable texts : list jsstring.
Hypothesis texts_unique : NoDup texts.
Hypothesis texts_length : List.length texts = 2048%nat.

Lemma get_digit d :
  digit 11 d ->
  get (map text_slot texts) d = VString (nth (Z.to_nat d) texts []).
Proof.
  intros [H0 H1]. rewrite <- (Z2Nat.id d) at 1 by lia.
  apply get_text. rewrite texts_length. lia.
Qed.

Lemma indexOf_get d :
  digit 11 d -> indexOf (map text_slot texts) (get (map text_slot texts) d) = d.
Proof.
  intros Hd. rewrite get_digit by exact Hd. unfold indexOf.
  destruct Hd as [H0 H1].
  rewrite indexOf_from_text; [lia | exact texts_unique |].
  rewrite texts_length. lia.
Qed.

Lemma map_indexOf_get digits :
  Forall (digit 11) digits ->
  map (fun word => indexOf (map text_slot texts) word)
      (map (get (map text_slot texts)) digits) = digits.
Proof.
  induction 1 as [| d l Hd _ IH]; [reflexivity |].
  cbn [map]. rewrite IH, indexOf_get by exact Hd. reflexivity.
Qed.

Lemma mapM_index_get digits :
  Forall (digit 11) digits ->
  mapM (fun letter =>
          if negb (typeof_string letter) then Throw AlphabetNotString
          else if indexOf (map text_slot texts) letter =? -1
               then Throw UnknownLetter
               else Ok (indexOf (map text_slot texts) letter))
       (map (get (map text_slot texts)) digits)
  = Ok digits.
Proof.
  induction 1 as [| d l Hd _ IH]; [reflexivity |].
  cbn [mapM map]. pose proof (indexOf_get d Hd) as Hi.
  rewrite get_digit in * by exact Hd. cbn [typeof_string negb].
  rewrite Hi. destruct Hd as [H0 H1].
  destruct (Z.eqb_spec d (-1)); [lia |]. cbn [bind].
  rewrite IH. reflexivity.
Qed.

Lemma alphabet_decode_get digits :
  Forall (digit 11) digits ->
  alphabet_decode (map text_slot texts) (map (get (map text_slot texts)) digits)
  = Ok digits.
Proof.
  intros Hd. unfold alphabet_decode. cbv zeta.
  rewrite mapM_index_get by exact Hd.
  destruct Hd as [| d l Hd' _]; [reflexivity |].
  cbn [map]. rewrite get_digit by exact Hd'. reflexivity.
Qed.

End Texts.

(** *** radix2(11, true) *)

Lemma radix_roundtrip bytes digits :
  convertRadix2 (map byte_val bytes) 8 11 false = Ok digits ->
  Forall (digit 11) digits /\
  convertRadix2 digits 11 8 true = Ok (map byte_val bytes).
Proof.
  intros E.
  destruct (convertRadix2_nopadding 8 11 ltac:(lia) ltac:(lia) ltac:(lia)
              _ _ (bytes_are_digits bytes) E)
    as (pos & Hpos & _ & Hdig & Hlen & Hval).
  split; [exact Hdig |].
  destruct (convertRadix2_padding 11 8 ltac:(lia) ltac:(lia) ltac:(lia)
              digits Hdig)
    as (out & pad & E' & Hdig' & Hpad & Hlen' & Hval').
  rewrite E'. f_equal.
  assert (pad = pos) by lia. subst pad.
  apply val_inj with (w := 8); auto using bytes_are_digits; try lia.
Qed.

(** *** checksum(1, calcChecksum) *)

Lemma checksum_encode_1 data :
  encode (checksum 1 (calcChecksum sha256)) data
  = Ok (data ++ calcChecksum sha256 data).
Proof. reflexivity. Qed.

Lemma checksum_decode_1 data c :
  decode (checksum 1 (calcChecksum sha256)) (data ++ [c])
  = if Byte.eqb (hd x00 (calcChecksum sha256 data)) c then Ok data
    else Throw InvalidChecksum.
Proof.
  cbn [decode checksum]. unfold slice_until_last, slice_last.
  cbn [Nat.eqb]. rewrite length_app. cbn [List.length].
  replace (List.length data + 1 - 1)%nat with (List.length data + 0)%nat by lia.
  rewrite firstn_app_2, skipn_app. cbn [firstn].
  rewrite Nat.add_0_r, skipn_all, app_nil_r, Nat.sub_diag. cbn [skipn app].
  unfold calcChecksum. cbn [firstn same_prefix nth_error hd].
  rewrite andb_true_r. reflexivity.
Qed.

End Codec.

(* ================================================================== *)
(** * Entropy to mnemonic and back *)
(* ================================================================== *)

Section RoundTrip.

Import JS Base.

Variable sha256 : list byte -> list byte.
Variable String_normalize_NFKD : jsstring -> jsstring.

Lemma calcChecksum_singleton entropy :
  calcChecksum sha256 entropy = [hd x00 (calcChecksum sha256 entropy)].
Proof. reflexivity. Qed.

(** The entropy followed by its checksum byte fills whole 11-bit groups
    up to zero bits: the strict conversion accepts it. *)
Lemma checksummed_encodes bytes :
  valid_entropy_length (List.length bytes) = true ->
  exists digits,
    convertRadix2 (map byte_val (bytes ++ calcChecksum sha256 bytes)) 8 11 false
    = Ok digits.
Proof.
  intros Hvalid.
  destruct (calcChecksum_valid sha256 bytes Hvalid) as (Ec & Hs & Hc & Hz).
  set (s := 8 - Z.of_nat (List.length bytes) / 4) in *.
  set (c := first_byte (sha256 bytes) - first_byte (sha256 bytes) mod 2 ^ s) in *.
  rewrite Ec.
  assert (Hrem : (8 * Z.of_nat (List.length (map byte_val (bytes ++ [to_byte c]))))
                 mod 11 = s).
  { rewrite length_map, length_app. cbn [List.length]. unfold s.
    apply valid_entropy_length_cases in Hvalid.
    destruct Hvalid as [H | [H | [H | [H | H]]]]; rewrite H; reflexivity. }
  apply convertRadix2_nopadding_ok; try lia.
  - apply bytes_are_digits.
  - rewrite Hrem. rewrite map_app. cbn [map]. rewrite val_snoc by lia.
    rewrite byte_val_to_byte, (Z.mod_small c 256) by lia.
    replace (2 ^ 8) with (2 ^ (8 - s) * 2 ^ s)
      by (rewrite <- Z.pow_add_r by lia; f_equal; lia).
    rewrite Z.mul_assoc, Z.add_comm, Z.mod_add by (apply Z.pow_nonzero; lia).
    exact Hz.
Qed.

Section WithTexts.

Variable texts : list jsstring.
Hypothesis texts_unique : NoDup texts.
Hypothesis texts_length : List.length texts = 2048%nat.

Let wordlist : array := map text_slot texts.

Lemma bip39_encode bytes digits :
  convertRadix2 (map byte_val (bytes ++ calcChecksum sha256 bytes)) 8 11 false
  = Ok digits ->
  encode (bip39_coder sha256 wordlist) bytes = Ok (map (get wordlist) digits).
Proof.
  intros E. unfold bip39_coder, chain. cbn [encode].
  rewrite checksum_encode_1. cbn [bind]. unfold radix2_11 at 1. cbn [encode].
  rewrite E. cbn [bind alphabet encode].
  apply alphabet_encode_ok.
  - unfold wordlist. rewrite length_map. exact texts_length.
  - apply (radix_roundtrip _ _ E).
Qed.

Lemma bip39_decode bytes digits :
  convertRadix2 (map byte_val (bytes ++ calcChecksum sha256 bytes)) 8 11 false
  = Ok digits ->
  decode (bip39_coder sha256 wordlist) (map (get wordlist) digits) = Ok bytes.
Proof.
  intros E. destruct (radix_roundtrip _ _ E) as [Hdig Hback].
  unfold bip39_coder, chain. cbn [decode alphabet].
  unfold wordlist.
  rewrite (alphabet_decode_get texts texts_unique texts_length) by exact Hdig.
  cbn [bind]. unfold radix2_11 at 1. cbn [decode].
  rewrite Hback. cbn [bind]. rewrite map_to_byte_val.
  rewrite calcChecksum_singleton, checksum_decode_1.
  rewrite (byte_dec_lb eq_refl). reflexivity.
Qed.

Lemma entropy_mnemonic_entropy entropy :
  valid_entropy_length (JS.length entropy) = true ->
  exists m,
    entropyToMnemonic sha256 entropy wordlist = Ok m /\
    owns_buffer m /\
    mnemonicToEntropy sha256 String_normalize_NFKD (MBytes m) wordlist
    = Ok (Uint8Array_of (elements entropy)).
Proof.
  intros Hvalid.
  destruct (checksummed_encodes (elements entropy) Hvalid) as [digits E].
  destruct (radix_roundtrip _ _ E) as [Hdig _].
  assert (Hacc : getCoder_accepts wordlist = true).
  { apply table_of_2048_strings_accepted. unfold table_of_2048_strings, wordlist.
    rewrite length_map, texts_length. cbn [Nat.eqb andb].
    apply forallb_forall. intros x Hx. apply in_map_iff in Hx as (t & <- & _).
    reflexivity. }
  exists (Uint8Array_of (Uint16Array_buffer digits)).
  split; [| split].
  - unfold entropyToMnemonic, assertEntropy, assert_bytes.
    unfold valid_entropy_length in Hvalid. rewrite Hvalid. cbn [bind].
    rewrite getCoder_accepted by exact Hacc. cbn [bind].
    rewrite (bip39_encode _ _ E). cbn [bind].
    unfold wordlist. rewrite map_indexOf_get by auto. reflexivity.
  - split; reflexivity.
  - unfold mnemonicToEntropy.
    rewrite getCoder_accepted by exact Hacc. cbn [bind buffer Uint8Array_of].
    rewrite Uint16Array_roundtrip.
    + cbn [bind]. change (fun i : Z => get wordlist i) with (get wordlist).
      rewrite (bip39_decode _ _ E). cbn [bind].
      unfold assertEntropy, assert_bytes. rewrite length_of.
      unfold valid_entropy_length, JS.length in Hvalid. rewrite Hvalid.
      reflexivity.
    + eapply Forall_impl; [| exact Hdig]. intros d [H0 H1]. split; [lia |].
      apply Z.lt_le_trans with (2 ^ 11); [exact H1 | apply pow2_le_mono; lia].
Qed.

End WithTexts.

(** C1.  For every entropy whose length is 16, 20, 24, 28 or 32 bytes and
    every wordlist of 2048 unique non-empty strings, [entropyToMnemonic]
    returns a mnemonic and [mnemonicToEntropy] on that mnemonic, with the
    same wordlist, returns a byte array whose bytes are those of the
    entropy. *)
Theorem mnemonicToEntropy_entropyToMnemonic entropy wordlist :
  valid_entropy_length (JS.length entropy) = true ->
  valid_wordlist wordlist = true ->
  exists m back,
    entropyToMnemonic sha256 entropy wordlist = Ok m /\
    mnemonicToEntropy sha256 String_normalize_NFKD (MBytes m) wordlist
    = Ok back /\
    elements back = elements entropy.
Proof.
  intros Hlen Hwl.
  destruct (valid_wordlist_texts wordlist Hwl) as (texts & -> & Hnd & Htl & _).
  destruct (entropy_mnemonic_entropy texts Hnd Htl entropy Hlen)
    as (m & Hm & _ & Hback).
  exists m, (Uint8Array_of (elements entropy)).
  repeat split; auto. apply elements_of.
Qed.

End RoundTrip.

(* ================================================================== *)
(** * The checksum byte *)
(* ================================================================== *)

Section ChecksumByte.

Import JS Base.

Variable sha256 : list byte -> list byte.

Lemma first_byte_nth digest : first_byte digest = byte_val (nth 0 digest x00).
Proof. destruct digest; reflexivity. Qed.

Lemma testbit_shift_out_in h s i :
  0 <= s -> 0 <= i ->
  Z.testbit (Z.shiftl (Z.shiftr h s) s) i = (s <=? i) && Z.testbit h i.
Proof.
  intros Hs Hi. rewrite Z.shiftl_spec by lia.
  destruct (Z.leb_spec s i) as [Hle | Hlt]; cbn [andb].
  - rewrite Z.shiftr_spec by lia. f_equal. lia.
  - apply Z.testbit_neg_r. lia.
Qed.

(** C3.  For an entropy of L bytes, L in {16, 20, 24, 28, 32}, the
    checksum that encoding appends is the single byte
    [(sha256(entropy)[0] >> (8 - L/4)) << (8 - L/4)]: bit i of it is bit i
    of the hash's first byte for the top L/4 bits and zero for the
    [8 - L/4] low bits. *)
Theorem calcChecksum_top_bits entropy :
  valid_entropy_length (List.length entropy) = true ->
  let L := Z.of_nat (List.length entropy) in
  let digest0 := byte_val (nth 0 (sha256 entropy) x00) in
  let c := checksum_byte_spec digest0 L in
  calcChecksum sha256 entropy = [to_byte c] /\
  byte_val (to_byte c) = c /\
  c = Z.shiftl (Z.shiftr digest0 (8 - L / 4)) (8 - L / 4) /\
  (forall i, 0 <= i ->
     Z.testbit c i = (8 - L / 4 <=? i) && Z.testbit digest0 i) /\
  encode (checksum 1 (calcChecksum sha256)) entropy = Ok (entropy ++ [to_byte c]).
Proof.
  intros Hvalid L digest0 c.
  destruct (calcChecksum_valid sha256 entropy Hvalid) as (Ec & Hs & Hc & _).
  rewrite first_byte_nth in Ec, Hc. fold L digest0 in Ec, Hc, Hs.
  assert (Hspec : c = digest0 - digest0 mod 2 ^ (8 - L / 4)).
  { unfold c, checksum_byte_spec. cbv zeta. apply shift_out_in. lia. }
  rewrite <- Hspec in Ec, Hc.
  split; [exact Ec |]. split; [| split; [| split]].
  - rewrite byte_val_to_byte. apply Z.mod_small. exact Hc.
  - reflexivity.
  - intros i Hi. unfold c, checksum_byte_spec. cbv zeta.
    apply testbit_shift_out_in; lia.
  - rewrite checksum_encode_1, Ec. reflexivity.
Qed.

End ChecksumByte.

(* ================================================================== *)
(** * Seed derivation *)
(* ================================================================== *)

Section Seed.

Import JS Base.

Variable sha256 : list byte -> list byte.
Variable String_normalize_NFKD : jsstring -> jsstring.
Variable TextEncoder_encode : jsstring -> list byte.
Variable Hash : Type.
Variable sha512 : Hash.
Variable PBKDF2 : Hash -> list byte -> list byte -> Z -> Z -> list byte.
Variable PBKDF2_async : Hash -> list byte -> list byte -> Z -> Z
                        -> Promise (list byte).
Variable randomBytes : Z -> list byte.

(** PBKDF2 returns [dkLen] bytes. *)
Hypothesis PBKDF2_length : forall h password s c dkLen,
  List.length (PBKDF2 h password s c dkLen) = Z.to_nat dkLen.

(** [pbkdf2Async] settles with the value [pbkdf2] returns. *)
Hypothesis PBKDF2_async_value : forall h password s c dkLen,
  PBKDF2_async h password s c dkLen = Fulfilled (PBKDF2 h password s c dkLen).

(** NFKD maps code points one by one and reorders only runs of combining
    marks; the ASCII literal has no decomposition and ends in a starter, so
    it passes through in front of whatever follows. *)
Hypothesis NFKD_after_literal : forall passphrase,
  String_normalize_NFKD (lit "mnemonic" ++ passphrase)
  = lit "mnemonic" ++ String_normalize_NFKD passphrase.

Local Abbreviation encodeForSeed :=
  (encodeMnemonicForSeedDerivation String_normalize_NFKD TextEncoder_encode).
Local Abbreviation seedSync :=
  (mnemonicToSeedSync String_normalize_NFKD TextEncoder_encode sha512 PBKDF2).
Local Abbreviation seedAsync :=
  (mnemonicToSeed String_normalize_NFKD TextEncoder_encode sha512 PBKDF2_async).
Local Abbreviation toEntropy := (mnemonicToEntropy sha256 String_normalize_NFKD).
Local Abbreviation validate := (validateMnemonic sha256 String_normalize_NFKD).

Lemma normalize_cases str :
  let norm := String_normalize_NFKD str in
  normalize String_normalize_NFKD str
  = if valid_word_count (List.length (split space norm))
    then Ok (mkNormalized norm (split space norm))
    else Throw InvalidMnemonic.
Proof.
  unfold normalize, nfkd, valid_word_count. cbn [bind].
  destruct (existsb _ _); reflexivity.
Qed.

Lemma seedSync_unfold m wordlist passphrase :
  seedSync m wordlist passphrase
  = (password <- encodeForSeed m wordlist ;;
     Ok (PBKDF2 sha512 password
           (TextEncoder_encode
              (String_normalize_NFKD (lit "mnemonic" ++ passphrase)))
           2048 64)).
Proof. reflexivity. Qed.

Lemma seedAsync_unfold m wordlist passphrase :
  seedAsync m wordlist passphrase
  = (password <- encodeForSeed m wordlist ;;
     Ok (PBKDF2_async sha512 password
           (TextEncoder_encode
              (String_normalize_NFKD (lit "mnemonic" ++ passphrase)))
           2048 64)).
Proof. reflexivity. Qed.

(** C2.  For a string mnemonic whose NFKD form splits into 12, 15, 18, 21
    or 24 words and any passphrase, [mnemonicToSeedSync] returns the 64
    bytes of PBKDF2 with HMAC-SHA512, 2048 iterations, password the UTF-8
    bytes of the NFKD form of the mnemonic and salt the UTF-8 bytes of
    "mnemonic" followed by the NFKD form of the passphrase. *)
Theorem mnemonicToSeedSync_string str wordlist passphrase :
  valid_word_count
    (List.length (split space (String_normalize_NFKD str))) = true ->
  let password := TextEncoder_encode (String_normalize_NFKD str) in
  let s := TextEncoder_encode
             (lit "mnemonic" ++ String_normalize_NFKD passphrase) in
  seedSync (MString str) wordlist passphrase
  = Ok (PBKDF2 sha512 password s 2048 64) /\
  List.length (PBKDF2 sha512 password s 2048 64) = 64%nat.
Proof.
  intros Hcount password s. split.
  - rewrite seedSync_unfold. cbn [encodeMnemonicForSeedDerivation].
    rewrite normalize_cases. cbv zeta. rewrite Hcount. cbn [bind norm_nfkd].
    rewrite NFKD_after_literal. reflexivity.
  - rewrite PBKDF2_length. reflexivity.
Qed.

(** C6.  On every mnemonic, wordlist and passphrase the two calling forms
    end alike: both throw the same error, or the promise is fulfilled with
    the very 64 bytes the blocking form returns; and a call with the same
    arguments gives the same outcome. *)
Theorem mnemonicToSeed_mnemonicToSeedSync m wordlist passphrase :
  seedAsync m wordlist passphrase
  = (seed <- seedSync m wordlist passphrase ;; Ok (Fulfilled seed)) /\
  (forall seed,
     seedSync m wordlist passphrase = Ok seed ->
     List.length seed = 64%nat /\
     seedAsync m wordlist passphrase = Ok (Fulfilled seed)) /\
  (forall p, seedAsync m wordlist passphrase = Ok p ->
     exists seed, p = Fulfilled seed /\ List.length seed = 64%nat /\
                  seedSync m wordlist passphrase = Ok seed) /\
  (forall m' wordlist' passphrase',
     m' = m -> wordlist' = wordlist -> passphrase' = passphrase ->
     seedSync m' wordlist' passphrase' = seedSync m wordlist passphrase /\
     seedAsync m' wordlist' passphrase' = seedAsync m wordlist passphrase).
Proof.
  assert (Heq : seedAsync m wordlist passphrase
                = (seed <- seedSync m wordlist passphrase ;; Ok (Fulfilled seed))).
  { rewrite seedAsync_unfold, seedSync_unfold.
    destruct (encodeForSeed m wordlist); cbn [bind]; [| reflexivity].
    rewrite PBKDF2_async_value. reflexivity. }
  split; [exact Heq |]. split; [| split].
  - intros seed Hs. rewrite Heq, Hs. split; [| reflexivity].
    rewrite seedSync_unfold in Hs.
    destruct (encodeForSeed m wordlist); cbn [bind] in Hs; [| discriminate].
    injection Hs as <-. rewrite PBKDF2_length. reflexivity.
  - intros p Hp. rewrite Heq in Hp.
    destruct (seedSync m wordlist passphrase) as [seed |] eqn:Hs;
      cbn [bind] in Hp; [| discriminate].
    injection Hp as <-. exists seed. split; [reflexivity |]. split; [| reflexivity].
    rewrite seedSync_unfold in Hs.
    destruct (encodeForSeed m wordlist); cbn [bind] in Hs; [| discriminate].
    injection Hs as <-. rewrite PBKDF2_length. reflexivity.
  - intros m' wordlist' passphrase' -> -> ->. split; reflexivity.
Qed.

End Seed.

(* ================================================================== *)
(** * Binary mnemonics and failures *)
(* ================================================================== *)

Section Binary.

Import JS Base.

Variable sha256 : list byte -> list byte.
Variable String_normalize_NFKD : jsstring -> jsstring.
Variable TextEncoder_encode : jsstring -> list byte.
Variable Hash : Type.
Variable sha512 : Hash.
Variable PBKDF2 : Hash -> list byte -> list byte -> Z -> Z -> list byte.
Variable PBKDF2_async : Hash -> list byte -> list byte -> Z -> Z
                        -> Promise (list byte).
Variable randomBytes : Z -> list byte.

Hypothesis PBKDF2_length : forall h password s c dkLen,
  List.length (PBKDF2 h password s c dkLen) = Z.to_nat dkLen.

Hypothesis PBKDF2_async_value : forall h password s c dkLen,
  PBKDF2_async h password s c dkLen = Fulfilled (PBKDF2 h password s c dkLen).

Local Abbreviation encodeForSeed :=
  (encodeMnemonicForSeedDerivation String_normalize_NFKD TextEncoder_encode).
Local Abbreviation seedSync :=
  (mnemonicToSeedSync String_normalize_NFKD TextEncoder_encode sha512 PBKDF2).
Local Abbreviation seedAsync :=
  (mnemonicToSeed String_normalize_NFKD TextEncoder_encode sha512 PBKDF2_async).
Local Abbreviation toEntropy := (mnemonicToEntropy sha256 String_normalize_NFKD).
Local Abbreviation toMnemonic := (entropyToMnemonic sha256).
Local Abbreviation validate := (validateMnemonic sha256 String_normalize_NFKD).

Lemma owns_buffer_length a :
  owns_buffer a -> List.length (buffer a) = JS.length a.
Proof.
  intros H. unfold JS.length. rewrite owns_buffer_elements by exact H.
  reflexivity.
Qed.



(** C10 (amended).  A binary mnemonic of odd byte length that owns its
    whole buffer cannot be read as 16-bit indices: the typed-array
    constructor throws.  So [mnemonicToEntropy], [mnemonicToSeed] and
    [mnemonicToSeedSync] throw on it, [validateMnemonic] returns false,
    and no such mnemonic is decoded to an entropy. *)
Theorem odd_binary_mnemonic_fails a wordlist passphrase :
  owns_buffer a ->
  Nat.odd (JS.length a) = true ->
  Uint16Array_of_buffer (buffer a) = Throw Uint16ArrayRange /\
  toEntropy (MBytes a) wordlist
    = (getCoder sha256 wordlist ;;; Throw Uint16ArrayRange) /\
  (exists err, toEntropy (MBytes a) wordlist = Throw err) /\
  (forall entropy, toEntropy (MBytes a) wordlist <> Ok entropy) /\
  seedSync (MBytes a) wordlist passphrase = Throw Uint16ArrayRange /\
  seedAsync (MBytes a) wordlist passphrase = Throw Uint16ArrayRange /\
  validate (MBytes a) wordlist = false.
Proof.
  intros Hown Hodd.
  assert (Hrange : Uint16Array_of_buffer (buffer a) = Throw Uint16ArrayRange).
  { apply Uint16Array_odd. rewrite owns_buffer_length by exact Hown. exact Hodd. }
  assert (Hent : toEntropy (MBytes a) wordlist
                 = (getCoder sha256 wordlist ;;; Throw Uint16ArrayRange)).
  { unfold mnemonicToEntropy. rewrite Hrange.
    destruct (getCoder sha256 wordlist); reflexivity. }
  assert (Hthrows : exists err, toEntropy (MBytes a) wordlist = Throw err).
  { rewrite Hent. destruct (getCoder sha256 wordlist); cbn [bind]; eauto. }
  split; [exact Hrange |]. split; [exact Hent |].
  split; [exact Hthrows |]. split; [| split; [| split]].
  - intros entropy Hok. destruct Hthrows as [err Herr].
    rewrite Herr in Hok. discriminate.
  - unfold mnemonicToSeedSync. cbn [encodeMnemonicForSeedDerivation].
    rewrite Hrange. reflexivity.
  - unfold mnemonicToSeed. cbn [encodeMnemonicForSeedDerivation].
    rewrite Hrange. reflexivity.
  - unfold validateMnemonic. destruct Hthrows as [err ->]. reflexivity.
Qed.

(** C5.  [validateMnemonic] returns true when [mnemonicToEntropy] returns
    and false when it throws, whatever it throws; its result is a boolean,
    never a failure.  The other operations hand the failures of their
    steps on to the caller. *)
Theorem validateMnemonic_catches m wordlist :
  (validate m wordlist = true
   <-> exists entropy, toEntropy m wordlist = Ok entropy) /\
  (validate m wordlist = false
   <-> exists err, toEntropy m wordlist = Throw err) /\
  (forall err, toEntropy m wordlist = Throw err -> validate m wordlist = false) /\
  validate m wordlist = succeeds (toEntropy m wordlist) /\
  (forall entropy err,
     assertEntropy entropy = Throw err \/
     (assertEntropy entropy = Ok tt /\ getCoder sha256 wordlist = Throw err) ->
     toMnemonic entropy wordlist = Throw err) /\
  (forall passphrase err,
     encodeForSeed m wordlist = Throw err ->
     seedSync m wordlist passphrase = Throw err /\
     seedAsync m wordlist passphrase = Throw err) /\
  (forall strength err,
     assert_number strength = Ok tt ->
     Z.rem strength 32 = 0 -> strength <= 256 ->
     toMnemonic (Uint8Array_of (randomBytes (strength / 8))) wordlist
       = Throw err ->
     generateMnemonic sha256 randomBytes wordlist strength = Throw err).
Proof.
  unfold validateMnemonic, succeeds.
  split; [| split; [| split; [| split; [| split; [| split]]]]].
  - destruct (toEntropy m wordlist); split; eauto; try discriminate.
    intros [entropy H]. discriminate.
  - destruct (toEntropy m wordlist); split; eauto; try discriminate.
    intros [err H]. discriminate.
  - intros err ->. reflexivity.
  - destruct (toEntropy m wordlist); reflexivity.
  - intros entropy err [H | [H1 H2]]; unfold entropyToMnemonic.
    + rewrite H. reflexivity.
    + rewrite H1. cbn [bind]. rewrite H2. reflexivity.
  - intros passphrase err H. split.
    + unfold mnemonicToSeedSync. rewrite H. reflexivity.
    + unfold mnemonicToSeed. rewrite H. reflexivity.
  - intros strength err Hn Hrem Hmax Hfail. unfold generateMnemonic.
    rewrite Hn. cbn [bind]. rewrite Hrem. cbn [Z.eqb negb orb].
    destruct (Z.gtb_spec strength 256); [lia | exact Hfail].
Qed.

End Binary.

(* ================================================================== *)
(** * Which step throws what *)
(* ================================================================== *)

Section ErrorKinds.

Import JS Base.

Variable sha256 : list byte -> list byte.

Lemma mapM_error {A B : Type} (P : error -> bool) (f : A -> result B) l e :
  (forall x e', f x = Throw e' -> P e' = true) ->
  mapM f l = Throw e -> P e = true.
Proof.
  intros Hf. induction l as [| x l IH]; cbn [mapM]; [discriminate |].
  destruct (f x) as [y |] eqn:Ex; cbn [bind].
  - destruct (mapM f l); cbn [bind]; [discriminate |].
    intros H. injection H as <-. apply IH. reflexivity.
  - intros H. injection H as <-. eapply Hf. exact Ex.
Qed.

Lemma assertNumber_error n e :
  assertNumber n = Throw e -> is_coder_error e = true.
Proof.
  unfold assertNumber. destruct (isSafeInteger n); [discriminate |].
  intros H. injection H as <-. reflexivity.
Qed.

Lemma convert_loop_error from to mask : forall data carry pos res e,
  convert_loop data from to mask carry pos res = Throw e ->
  is_coder_error e = true.
Proof.
  induction data as [| n rest IH]; intros carry pos res e; cbn [convert_loop];
    [discriminate |].
  destruct (assertNumber n) eqn:En; cbn [bind].
  - destruct (n >=? 2 ^ from); [intros H; injection H as <-; reflexivity |].
    destruct (pos + from >? 32); [intros H; injection H as <-; reflexivity |].
    destruct (drain _ _ _ _ _ _) as [pos' res']. apply IH.
  - intros H. injection H as <-. eapply assertNumber_error. exact En.
Qed.

Lemma convertRadix2_error data from to padding e :
  convertRadix2 data from to padding = Throw e -> is_coder_error e = true.
Proof.
  unfold convertRadix2.
  destruct ((from <=? 0) || (from >? 32));
    [intros H; injection H as <-; reflexivity |].
  destruct ((to <=? 0) || (to >? 32));
    [intros H; injection H as <-; reflexivity |].
  destruct (radix2carry from to >? 32);
    [intros H; injection H as <-; reflexivity |].
  destruct (convert_loop data from to (2 ^ to - 1) 0 0 []) as [[[c p] r] |] eqn:E;
    cbn [bind].
  - destruct (negb padding && (p >=? from));
      [intros H; injection H as <-; reflexivity |].
    destruct (negb padding && negb (_ =? 0));
      [intros H; injection H as <-; reflexivity |].
    destruct (padding && (p >? 0)); discriminate.
  - intros H. injection H as <-. eapply convert_loop_error. exact E.
Qed.

Lemma alphabet_encode_error letters digits e :
  alphabet_encode letters digits = Throw e -> is_coder_error e = true.
Proof.
  apply mapM_error. intros i e'.
  destruct (assertNumber i) eqn:En; cbn [bind].
  - destruct ((i <? 0) || (i >=? Z.of_nat (List.length letters)));
      [| discriminate].
    intros H. injection H as <-. reflexivity.
  - intros H. injection H as <-. eapply assertNumber_error. exact En.
Qed.

Lemma alphabet_decode_error letters input e :
  alphabet_decode letters input = Throw e -> is_coder_error e = true.
Proof.
  unfold alphabet_decode.
  destruct (match input with
            | [] => Ok tt
            | first :: _ =>
                if negb (typeof_string first) then Throw AlphabetDecodeInput
                else Ok tt
            end) eqn:Eh; cbn [bind].
  - apply mapM_error. intros letter e'. cbv zeta.
    destruct (negb (typeof_string letter));
      [intros H; injection H as <-; reflexivity |].
    destruct (indexOf letters letter =? -1); [| discriminate].
    intros H. injection H as <-. reflexivity.
  - intros H. injection H as <-.
    destruct input as [| first rest]; [discriminate |].
    destruct (negb (typeof_string first)); [| discriminate].
    injection Eh as <-. reflexivity.
Qed.

Lemma bip39_encode_error wordlist bytes e :
  encode (bip39_coder sha256 wordlist) bytes = Throw e ->
  is_coder_error e = true.
Proof.
  unfold bip39_coder, chain. cbn [encode]. rewrite checksum_encode_1.
  cbn [bind]. unfold radix2_11 at 1. cbn [encode].
  destruct (convertRadix2 _ 8 11 false) as [digits |] eqn:E; cbn [bind].
  - apply alphabet_encode_error.
  - intros H. injection H as <-. eapply convertRadix2_error. exact E.
Qed.

Lemma bip39_decode_error wordlist words e :
  decode (bip39_coder sha256 wordlist) words = Throw e ->
  is_coder_error e = true.
Proof.
  unfold bip39_coder, chain. cbn [decode alphabet].
  destruct (alphabet_decode wordlist words) as [digits |] eqn:Ea; cbn [bind].
  - unfold radix2_11 at 1. cbn [decode].
    destruct (convertRadix2 digits 11 8 true) as [r |] eqn:E; cbn [bind].
    + cbn [checksum decode].
      destruct (same_prefix _ _ _ _); [discriminate |].
      intros H. injection H as <-. reflexivity.
    + intros H. injection H as <-. eapply convertRadix2_error. exact E.
  - intros H. injection H as <-. eapply alphabet_decode_error. exact Ea.
Qed.

Lemma assertEntropy_cases entropy :
  assertEntropy entropy
  = if valid_entropy_length (JS.length entropy) then Ok tt
    else Throw ExpectedBytesLength.
Proof. reflexivity. Qed.

(** *** split *)

Lemma split_nonempty sep s : split sep s <> [].
Proof.
  destruct s as [| c rest]; cbn [split]; [discriminate |].
  destruct (N.eqb c sep); [discriminate |].
  destruct (split sep rest); discriminate.
Qed.

Lemma unsplit_split sep s : unsplit sep (split sep s) = s.
Proof.
  induction s as [| c rest IH]; [reflexivity |]. cbn [split].
  destruct (N.eqb_spec c sep) as [-> | Hne].
  - pose proof (split_nonempty sep rest) as Hn.
    destruct (split sep rest) as [| w ws]; [contradiction |].
    cbn [unsplit app]. cbn [unsplit] in IH. rewrite IH. reflexivity.
  - pose proof (split_nonempty sep rest) as Hn.
    destruct (split sep rest) as [| w ws]; [contradiction |].
    destruct ws as [| w' ws'].
    + cbn [unsplit] in *. rewrite IH. reflexivity.
    + cbn [unsplit] in *. rewrite <- IH. reflexivity.
Qed.

Lemma split_words_have_no_separator sep s :
  Forall (fun w => ~ In sep w) (split sep s).
Proof.
  induction s as [| c rest IH]; cbn [split].
  - constructor; [intros [] | constructor].
  - destruct (N.eqb_spec c sep) as [-> | Hne].
    + constructor; [intros [] | exact IH].
    + destruct (split sep rest) as [| w ws].
      * constructor; [| constructor]. intros [H | []]. congruence.
      * inversion IH as [| ? ? Hw Hws]; subst. constructor; [| exact Hws].
        intros [H | H]; [congruence | contradiction].
Qed.

End ErrorKinds.

(* ================================================================== *)
(** * Word count and wordlist validation *)
(* ================================================================== *)

Section Validation.

Import JS Base.

Variable sha256 : list byte -> list byte.
Variable String_normalize_NFKD : jsstring -> jsstring.

Local Abbreviation toEntropy := (mnemonicToEntropy sha256 String_normalize_NFKD).
Local Abbreviation toMnemonic := (entropyToMnemonic sha256).

Lemma decode_words_error wordlist words e :
  decode_words sha256 wordlist words = Throw e ->
  is_coder_error e = true \/ e = ExpectedBytesLength.
Proof.
  unfold decode_words.
  destruct (decode _ words) as [entropy |] eqn:Ed; cbn [bind].
  - rewrite assertEntropy_cases.
    destruct (valid_entropy_length _); cbn [bind]; [discriminate |].
    intros H. injection H as <-. right. reflexivity.
  - intros H. injection H as <-. left. eapply bip39_decode_error. exact Ed.
Qed.

Lemma toEntropy_string str wordlist :
  toEntropy (MString str) wordlist
  = (n <- normalize String_normalize_NFKD str ;;
     coder <- getCoder sha256 wordlist ;;
     entropy <- decode coder (map VString (norm_words n)) ;;
     let entropy := Uint8Array_of entropy in
     assertEntropy entropy ;;;
     Ok entropy).
Proof.
  unfold mnemonicToEntropy.
  destruct (normalize String_normalize_NFKD str); cbn [bind]; [| reflexivity].
  destruct (getCoder sha256 wordlist); reflexivity.
Qed.

Lemma toEntropy_binary a wordlist :
  toEntropy (MBytes a) wordlist
  = (coder <- getCoder sha256 wordlist ;;
     indices <- Uint16Array_of_buffer (buffer a) ;;
     entropy <- decode coder (map (fun i => get wordlist i) indices) ;;
     let entropy := Uint8Array_of entropy in
     assertEntropy entropy ;;;
     Ok entropy).
Proof.
  unfold mnemonicToEntropy.
  destruct (getCoder sha256 wordlist); cbn [bind]; [| reflexivity].
  destruct (Uint16Array_of_buffer (buffer a)); reflexivity.
Qed.

(** C8.  On a string, [mnemonicToEntropy] normalizes to NFKD, splits the
    normalized string at every U+0020 and decodes those words; it throws
    the word-count error exactly when the number of words is none of 12,
    15, 18, 21, 24. *)
Theorem mnemonicToEntropy_word_count str wordlist :
  let norm := String_normalize_NFKD str in
  let words := split space norm in
  (unsplit space words = norm /\ Forall (fun w => ~ In space w) words) /\
  (toEntropy (MString str) wordlist = Throw InvalidMnemonic
   <-> valid_word_count (List.length words) = false) /\
  (valid_word_count (List.length words) = true ->
   toEntropy (MString str) wordlist
   = (coder <- getCoder sha256 wordlist ;;
      entropy <- decode coder (map VString words) ;;
      let entropy := Uint8Array_of entropy in
      assertEntropy entropy ;;;
      Ok entropy)).
Proof.
  intros norm words.
  split; [split; [apply unsplit_split | apply split_words_have_no_separator] |].
  rewrite toEntropy_string, normalize_cases. cbv zeta. fold norm words.
  destruct (valid_word_count (List.length words)); cbn [bind norm_words].
  - split; [| reflexivity]. split; [| discriminate].
    intros H. exfalso.
    destruct (getCoder_cases sha256 wordlist) as [[_ Hc] | [_ (e & Hc & He)]];
      rewrite Hc in H; cbn [bind] in H.
    + apply (decode_words_error wordlist (map VString words)) in H.
      destruct H as [H | H]; discriminate.
    + injection H as Heq. subst e. discriminate.
  - split; [| discriminate]. split; reflexivity.
Qed.

(** C4 (amended).  For a wordlist array without holes, [getCoder] throws
    an invalid-wordlist error exactly when the array is not a table of
    2048 strings; an empty string is a string.  [entropyToMnemonic] and
    [mnemonicToEntropy] reach [getCoder] before any encoding or decoding
    step, once the entropy length, or the word count of a string mnemonic,
    has been accepted: from there on they throw an invalid-wordlist error
    exactly for those arrays.  On such an array both always fail. *)
Theorem invalid_wordlist_rejected wordlist :
  dense wordlist = true ->
  ((exists err, is_wordlist_error err = true /\
                getCoder sha256 wordlist = Throw err)
   <-> table_of_2048_strings wordlist = false) /\
  (forall entropy,
     valid_entropy_length (JS.length entropy) = true ->
     ((exists err, is_wordlist_error err = true /\
                   toMnemonic entropy wordlist = Throw err)
      <-> table_of_2048_strings wordlist = false)) /\
  (forall m,
     match m with
     | MString str =>
         valid_word_count
           (List.length (split space (String_normalize_NFKD str))) = true
     | MBytes _ => True
     end ->
     ((exists err, is_wordlist_error err = true /\
                   toEntropy m wordlist = Throw err)
      <-> table_of_2048_strings wordlist = false)) /\
  (table_of_2048_strings wordlist = false ->
   forall entropy m,
     succeeds (toMnemonic entropy wordlist) = false /\
     succeeds (toEntropy m wordlist) = false).
Proof.
  intros Hdense.
  pose proof (getCoder_accepts_dense wordlist Hdense) as Hacc.
  destruct (getCoder_cases sha256 wordlist)
    as [[Ha Hc] | [Ha (e0 & Hc & He0)]]; rewrite Ha in Hacc; rewrite <- Hacc.
  - split; [| split; [| split]].
    + split; [| discriminate]. intros (err & He & H). congruence.
    + intros entropy Hlen. split; [| discriminate].
      intros (err & He & H). exfalso.
      unfold entropyToMnemonic in H. rewrite assertEntropy_cases, Hlen, Hc in H.
      cbn [bind] in H.
      destruct (encode _ _) eqn:Ee; cbn [bind] in H; [discriminate |].
      injection H as ->. apply bip39_encode_error in Ee.
      destruct err; discriminate.
    + intros m Hm. split; [| discriminate].
      intros (err & He & H). exfalso. destruct m as [str | a].
      * rewrite toEntropy_string, normalize_cases in H. cbv zeta in H.
        rewrite Hm, Hc in H. cbn [bind norm_words] in H.
        apply (decode_words_error wordlist) in H.
        destruct H as [H | H]; destruct err; discriminate.
      * rewrite toEntropy_binary, Hc in H. cbn [bind] in H.
        destruct (Uint16Array_of_buffer (buffer a)) as [indices |] eqn:Eu;
          cbn [bind] in H.
        -- apply (decode_words_error wordlist) in H.
           destruct H as [H | H]; destruct err; discriminate.
        -- unfold Uint16Array_of_buffer in Eu.
           destruct (Nat.even _); [discriminate |].
           injection Eu as <-. injection H as <-. discriminate.
    + discriminate.
  - split; [| split; [| split]].
    + split; [reflexivity |]. intros _. exists e0. auto.
    + intros entropy Hlen. split; [reflexivity |]. intros _. exists e0.
      split; [exact He0 |].
      unfold entropyToMnemonic. rewrite assertEntropy_cases, Hlen, Hc.
      reflexivity.
    + intros m Hm. split; [reflexivity |]. intros _. exists e0.
      split; [exact He0 |]. destruct m as [str | a].
      * rewrite toEntropy_string, normalize_cases. cbv zeta.
        rewrite Hm, Hc. reflexivity.
      * rewrite toEntropy_binary, Hc. reflexivity.
    + intros _ entropy m. split.
      * unfold entropyToMnemonic. rewrite Hc.
        destruct (assertEntropy entropy); reflexivity.
      * destruct m as [str | a].
        -- rewrite toEntropy_string, Hc.
           destruct (normalize String_normalize_NFKD str); reflexivity.
        -- rewrite toEntropy_binary, Hc. reflexivity.
Qed.

End Validation.

(* ================================================================== *)
(** * Checksum sensitivity *)
(* ================================================================== *)

Section ChecksumSensitivity.

Import JS Base.

Variable sha256 : list byte -> list byte.
Variable String_normalize_NFKD : jsstring -> jsstring.

Local Abbreviation toEntropy := (mnemonicToEntropy sha256 String_normalize_NFKD).
Local Abbreviation validate := (validateMnemonic sha256 String_normalize_NFKD).
Local Abbreviation indices_of := (mnemonic_indices String_normalize_NFKD).

Lemma decode_words_indices wordlist words :
  decode_words sha256 wordlist words
  = (indices <- alphabet_decode wordlist words ;; decode_indices sha256 indices).
Proof.
  unfold decode_words, decode_indices, bip39_coder.
  cbn [chain decode alphabet].
  destruct (alphabet_decode wordlist words); reflexivity.
Qed.

Lemma toEntropy_indices m wordlist :
  getCoder_accepts wordlist = true ->
  toEntropy m wordlist
  = (indices <- indices_of m wordlist ;; decode_indices sha256 indices).
Proof.
  intros Hacc. pose proof (getCoder_accepted sha256 wordlist Hacc) as Hc.
  destruct m as [str | a].
  - rewrite toEntropy_string. cbn [mnemonic_indices].
    destruct (normalize String_normalize_NFKD str) as [n |]; cbn [bind];
      [| reflexivity].
    rewrite Hc. cbn [bind].
    change (decode_words sha256 wordlist (map VString (norm_words n))
            = (indices <- alphabet_decode wordlist (map VString (norm_words n)) ;;
               decode_indices sha256 indices)).
    apply decode_words_indices.
  - rewrite toEntropy_binary, Hc. cbn [bind mnemonic_indices].
    destruct (Uint16Array_of_buffer (buffer a)) as [ns |]; cbn [bind];
      [| reflexivity].
    change (decode_words sha256 wordlist (map (fun i => get wordlist i) ns)
            = (indices <- alphabet_decode wordlist
                            (map (fun i => get wordlist i) ns) ;;
               decode_indices sha256 indices)).
    apply decode_words_indices.
Qed.

Lemma validate_accepts m wordlist :
  validate m wordlist = true -> getCoder_accepts wordlist = true.
Proof.
  unfold validateMnemonic. intros H.
  destruct (getCoder_cases sha256 wordlist) as [[Ha _] | [_ (e & Hc & _)]];
    [exact Ha | exfalso].
  destruct m as [str | a].
  - rewrite toEntropy_string, Hc in H.
    destruct (normalize String_normalize_NFKD str); discriminate.
  - rewrite toEntropy_binary, Hc in H. discriminate.
Qed.

Lemma mapM_Forall2 {A B : Type} (f : A -> result B) l : forall r,
  mapM f l = Ok r -> Forall2 (fun x y => f x = Ok y) l r.
Proof.
  induction l as [| x l IH]; cbn [mapM]; intros r H.
  - injection H as <-. constructor.
  - destruct (f x) as [y |] eqn:Ex; cbn [bind] in H; [| discriminate].
    destruct (mapM f l) as [ys |]; cbn [bind] in H; [| discriminate].
    injection H as <-. constructor; auto.
Qed.

Lemma alphabet_decode_digits wordlist words indices :
  List.length wordlist = 2048%nat ->
  alphabet_decode wordlist words = Ok indices ->
  Forall (digit 11) indices.
Proof.
  intros Hlen. unfold alphabet_decode.
  destruct (match words with [] => _ | _ :: _ => _ end); cbn [bind];
    [| discriminate].
  intros H. apply mapM_Forall2 in H.
  induction H as [| w i ws ns Hw _ IH]; constructor; auto.
  cbv zeta in Hw. destruct (negb (typeof_string w)); [discriminate |].
  destruct (Z.eqb_spec (indexOf wordlist w) (-1)) as [| Hne]; [discriminate |].
  injection Hw as <-. unfold indexOf in *.
  destruct (indexOf_from_range wordlist w 0) as [H' | H']; [contradiction |].
  rewrite Hlen in H'. unfold digit. change (2 ^ 11) with 2048. lia.
Qed.

Lemma indices_of_digits m wordlist indices :
  getCoder_accepts wordlist = true ->
  indices_of m wordlist = Ok indices -> Forall (digit 11) indices.
Proof.
  intros Hacc H. unfold getCoder_accepts in Hacc.
  apply andb_prop in Hacc as [Hacc _]. apply andb_prop in Hacc as [Hlen _].
  apply Nat.eqb_eq in Hlen.
  destruct m as [str | a]; cbn [mnemonic_indices] in H.
  - destruct (normalize String_normalize_NFKD str); cbn [bind] in H;
      [| discriminate].
    eapply alphabet_decode_digits; eauto.
  - destruct (Uint16Array_of_buffer (buffer a)); cbn [bind] in H;
      [| discriminate].
    eapply alphabet_decode_digits; eauto.
Qed.

Lemma decode_indices_unfold indices out :
  convertRadix2 indices 11 8 true = Ok out ->
  decode_indices sha256 indices
  = (payload <- decode (checksum 1 (calcChecksum sha256)) (map to_byte out) ;;
     let entropy := Uint8Array_of payload in
     assertEntropy entropy ;;;
     Ok entropy).
Proof.
  intros E. unfold decode_indices, chain. cbn [decode].
  unfold radix2_11 at 1. cbn [decode]. rewrite E. reflexivity.
Qed.

Lemma digits8_bytes out :
  Forall (digit 8) out -> map byte_val (map to_byte out) = out.
Proof.
  induction 1 as [| d l Hd _ IH]; [reflexivity |].
  cbn [map]. rewrite IH, byte_val_to_byte. f_equal.
  apply Z.mod_small. exact Hd.
Qed.

Lemma checksum_decode_empty :
  decode (checksum 1 (calcChecksum sha256)) [] = Throw InvalidChecksum.
Proof. reflexivity. Qed.

Lemma last_case {A : Type} (l : list A) :
  l = [] \/ exists front x, l = front ++ [x].
Proof.
  induction l as [| x front _] using rev_ind; [left | right]; eauto.
Qed.





Lemma digit_11_16 indices :
  Forall (digit 11) indices -> Forall (digit 16) indices.
Proof.
  intros H. eapply Forall_impl; [| exact H]. intros d [H0 H1]. split; [lia |].
  apply Z.lt_le_trans with (2 ^ 11); [exact H1 | apply pow2_le_mono; lia].
Qed.



End ChecksumSensitivity.

(* ================================================================== *)
(** * The model on concrete inputs *)
(* ================================================================== *)

Section Examples.

Import JS Base.

Example encode_example :
  entropyToMnemonic example_sha256 example_entropy example_wordlist
  = Ok example_binary.
Proof. vm_compute. reflexivity. Qed.

Example decode_example_phrase :
  option_map elements
    (match mnemonicToEntropy example_sha256 example_NFKD
             (MString example_phrase) example_wordlist with
     | Ok e => Some e
     | Throw _ => None
     end)
  = Some (elements example_entropy).
Proof. vm_compute. reflexivity. Qed.

Example split_example :
  split space (lit "a  b c ") = [lit "a"; []; lit "b"; lit "c"; []].
Proof. reflexivity. Qed.

Example wrong_word_count :
  mnemonicToEntropy example_sha256 example_NFKD (MString (lit "1019 2015"))
    example_wordlist
  = Throw InvalidMnemonic.
Proof. vm_compute. reflexivity. Qed.

Example unknown_word :
  mnemonicToEntropy example_sha256 example_NFKD
    (MString (lit "1019 2015 1790 2039 1983 1533 2031 1919 1019 2015 1790 x"))
    example_wordlist
  = Throw UnknownLetter.
Proof. vm_compute. reflexivity. Qed.

Example wrong_checksum :
  mnemonicToEntropy example_sha256 example_NFKD
    (MBytes (Uint8Array_of (Uint16Array_buffer flipped_indices)))
    example_wordlist
  = Throw InvalidChecksum.
Proof. vm_compute. reflexivity. Qed.

(** A hole is not visited by [forEach]: a table with a gap after its
    first entry passes [getCoder]. *)
Example getCoder_skips_hole :
  getCoder_accepts
    (hd None example_wordlist :: None :: tl (tl example_wordlist)) = true.
Proof. vm_compute. reflexivity. Qed.

(** The buffer behind a window is read whole: the window's own two bytes
    are not what the seed functions decode. *)
Example window_reads_whole_buffer :
  encodeMnemonicForSeedDerivation example_NFKD example_utf8
    (MBytes (mkUint8Array (Uint16Array_buffer [7; 8]) 0 2)) example_wordlist
  = Ok (example_utf8 (lit "7 8")).
Proof. vm_compute. reflexivity. Qed.

End Examples.

(* ================================================================== *)
(** * Counterexamples *)
(* ================================================================== *)

Section Counterexamples.

Import JS Base.

(** C4 as stated fails on a table of 2048 strings one of which is empty:
    it is not a table of non-empty texts, yet [entropyToMnemonic] and
    [mnemonicToEntropy] throw no invalid-wordlist error on it (they
    return). *)
Lemma empty_word_is_accepted :
  table_of_2048_nonempty_texts wordlist_with_empty_word = false /\
  ~ ((exists err, is_wordlist_error err = true /\
        entropyToMnemonic example_sha256 example_entropy
          wordlist_with_empty_word = Throw err)
     <-> table_of_2048_nonempty_texts wordlist_with_empty_word = false) /\
  ~ ((exists err, is_wordlist_error err = true /\
        mnemonicToEntropy example_sha256 example_NFKD (MBytes example_binary)
          wordlist_with_empty_word = Throw err)
     <-> table_of_2048_nonempty_texts wordlist_with_empty_word = false).
Proof.
  assert (Ht : table_of_2048_nonempty_texts wordlist_with_empty_word = false)
    by (vm_compute; reflexivity).
  assert (He : entropyToMnemonic example_sha256 example_entropy
                 wordlist_with_empty_word = Ok example_binary)
    by (vm_compute; reflexivity).
  assert (Hd : mnemonicToEntropy example_sha256 example_NFKD
                 (MBytes example_binary) wordlist_with_empty_word
               = Ok (Uint8Array_of (elements example_entropy)))
    by (vm_compute; reflexivity).
  split; [exact Ht |]. split.
  - intros [_ H]. destruct (H Ht) as (err & _ & Herr).
    rewrite He in Herr. discriminate.
  - intros [_ H]. destruct (H Ht) as (err & _ & Herr).
    rewrite Hd in Herr. discriminate.
Qed.


(** C10 as stated fails in its closing clause, on a byte array of odd
    length that is a window on a buffer of even length: the code reads
    the buffer, so the 23-byte window on the 24 bytes of a valid
    mnemonic is decoded to the entropy, validated, and given a seed. *)
Lemma odd_window_on_even_buffer_is_decoded :
  Nat.odd (JS.length odd_window_on_even_buffer) = true /\
  mnemonicToEntropy example_sha256 example_NFKD
    (MBytes odd_window_on_even_buffer) example_wordlist
  = Ok (Uint8Array_of (elements example_entropy)) /\
  validateMnemonic example_sha256 example_NFKD
    (MBytes odd_window_on_even_buffer) example_wordlist = true /\
  mnemonicToSeedSync example_NFKD example_utf8 tt example_PBKDF2
    (MBytes odd_window_on_even_buffer) example_wordlist []
  = Ok (example_PBKDF2 tt (example_utf8 example_phrase)
          (example_utf8 (lit "mnemonic")) 2048 64) /\
  ~ (exists err,
       mnemonicToEntropy example_sha256 example_NFKD
         (MBytes odd_window_on_even_buffer) example_wordlist = Throw err).
Proof.
  assert (Hd : mnemonicToEntropy example_sha256 example_NFKD
                 (MBytes odd_window_on_even_buffer) example_wordlist
               = Ok (Uint8Array_of (elements example_entropy)))
    by (vm_compute; reflexivity).
  split; [reflexivity |]. split; [exact Hd |].
  split; [vm_compute; reflexivity |]. split; [vm_compute; reflexivity |].
  intros [err H]. rewrite Hd in H. discriminate.
Qed.

End Counterexamples.

(* ================================================================== *)
(** * The theorems at concrete inputs *)
(* ================================================================== *)

Section Witnesses.

Import JS Base.

Lemma example_PBKDF2_length : forall h password s c dkLen,
  List.length (example_PBKDF2 h password s c dkLen) = Z.to_nat dkLen.
Proof. intros. apply repeat_length. Qed.

Lemma example_PBKDF2_async_value : forall h password s c dkLen,
  example_PBKDF2_async h password s c dkLen
  = Fulfilled (example_PBKDF2 h password s c dkLen).
Proof. reflexivity. Qed.

Lemma example_NFKD_after_literal : forall passphrase,
  example_NFKD (lit "mnemonic" ++ passphrase)
  = lit "mnemonic" ++ example_NFKD passphrase.
Proof. reflexivity. Qed.

Lemma mnemonicToEntropy_entropyToMnemonic_witness :
  valid_entropy_length (JS.length example_entropy) = true /\
  valid_wordlist example_wordlist = true /\
  exists m back,
    entropyToMnemonic example_sha256 example_entropy example_wordlist = Ok m /\
    mnemonicToEntropy example_sha256 example_NFKD (MBytes m) example_wordlist
    = Ok back /\
    elements back = elements example_entropy.
Proof.
  split; [vm_compute; reflexivity |]. split; [vm_compute; reflexivity |].
  apply (mnemonicToEntropy_entropyToMnemonic example_sha256 example_NFKD
           example_entropy example_wordlist); vm_compute; reflexivity.
Defined.

Lemma mnemonicToSeedSync_string_witness :
  valid_word_count
    (List.length (split space (example_NFKD example_phrase))) = true /\
  mnemonicToSeedSync example_NFKD example_utf8 tt example_PBKDF2
    (MString example_phrase) example_wordlist (lit "TREZOR")
  = Ok (example_PBKDF2 tt (example_utf8 (example_NFKD example_phrase))
          (example_utf8 (lit "mnemonic" ++ example_NFKD (lit "TREZOR")))
          2048 64).
Proof.
  split; [vm_compute; reflexivity |].
  apply (mnemonicToSeedSync_string example_NFKD example_utf8 unit tt
           example_PBKDF2 example_PBKDF2_length example_NFKD_after_literal
           example_phrase example_wordlist (lit "TREZOR")).
  vm_compute. reflexivity.
Defined.

Lemma calcChecksum_top_bits_witness :
  valid_entropy_length (List.length (elements example_entropy)) = true /\
  calcChecksum example_sha256 (elements example_entropy) = [to_byte 128].
Proof.
  split; [vm_compute; reflexivity |].
  apply (calcChecksum_top_bits example_sha256 (elements example_entropy)).
  vm_compute. reflexivity.
Defined.

Lemma invalid_wordlist_rejected_witness :
  dense (tl example_wordlist) = true /\
  table_of_2048_strings (tl example_wordlist) = false /\
  exists err,
    is_wordlist_error err = true /\
    getCoder example_sha256 (tl example_wordlist) = Throw err.
Proof.
  split; [vm_compute; reflexivity |]. split; [vm_compute; reflexivity |].
  apply (invalid_wordlist_rejected example_sha256 example_NFKD
           (tl example_wordlist)); vm_compute; reflexivity.
Defined.

Lemma mnemonicToSeed_mnemonicToSeedSync_witness :
  mnemonicToSeed example_NFKD example_utf8 tt example_PBKDF2_async
    (MString example_phrase) example_wordlist (lit "TREZOR")
  = (seed <- mnemonicToSeedSync example_NFKD example_utf8 tt example_PBKDF2
               (MString example_phrase) example_wordlist (lit "TREZOR") ;;
     Ok (Fulfilled seed)).
Proof.
  exact (proj1 (mnemonicToSeed_mnemonicToSeedSync example_NFKD example_utf8
                  unit tt example_PBKDF2 example_PBKDF2_async
                  example_PBKDF2_length example_PBKDF2_async_value
                  (MString example_phrase) example_wordlist (lit "TREZOR"))).
Defined.



Lemma odd_binary_mnemonic_fails_witness :
  owns_buffer (Uint8Array_of [x01; x02; x03]) /\
  Nat.odd (JS.length (Uint8Array_of [x01; x02; x03])) = true /\
  validateMnemonic example_sha256 example_NFKD
    (MBytes (Uint8Array_of [x01; x02; x03])) example_wordlist = false.
Proof.
  split; [split; reflexivity |]. split; [reflexivity |].
  apply (odd_binary_mnemonic_fails example_sha256 example_NFKD example_utf8
           unit tt example_PBKDF2 example_PBKDF2_async
           (Uint8Array_of [x01; x02; x03]) example_wordlist []).
  - split; reflexivity.
  - reflexivity.
Defined.

End Witnesses.

(* ================================================================== *)
(** * Further properties of the codec *)
(* ================================================================== *)

Section MoreCodec.

Import JS Base.

Variable sha256 : list byte -> list byte.

Local Abbreviation toMnemonic := (entropyToMnemonic sha256).

Lemma strict_eq_refl v : strict_eq v v = true.
Proof.
  destruct v as [| | b | n | s]; cbn [strict_eq]; auto.
  - destruct b; reflexivity.
  - apply Z.eqb_refl.
  - apply jsstring_eqb_eq. reflexivity.
Qed.

Lemma indexOf_from_present a v : forall i k,
  nth_error a i = Some (Some v) ->
  k <= indexOf_from a v k <= k + Z.of_nat i.
Proof.
  induction a as [| slot a IH]; intros i k H; [destruct i; discriminate |].
  destruct i as [| i]; cbn [nth_error] in H.
  - injection H as ->. cbn [indexOf_from]. rewrite strict_eq_refl. lia.
  - cbn [indexOf_from]. specialize (IH i (k + 1) H).
    destruct slot as [x |]; [destruct (strict_eq x v) |]; lia.
Qed.

Lemma getCoder_accepts_length wordlist :
  getCoder_accepts wordlist = true -> List.length wordlist = 2048%nat.
Proof.
  unfold getCoder_accepts. intros H.
  apply andb_prop in H as [H _]. apply andb_prop in H as [H _].
  apply Nat.eqb_eq. exact H.
Qed.

Lemma bip39_encode_any wordlist bytes digits :
  List.length wordlist = 2048%nat ->
  convertRadix2 (map byte_val (bytes ++ calcChecksum sha256 bytes)) 8 11 false
  = Ok digits ->
  encode (bip39_coder sha256 wordlist) bytes = Ok (map (get wordlist) digits).
Proof.
  intros Hlen E. unfold bip39_coder, chain. cbn [encode].
  rewrite checksum_encode_1. cbn [bind]. unfold radix2_11 at 1. cbn [encode].
  rewrite E. cbn [bind alphabet encode].
  apply alphabet_encode_ok; [exact Hlen | apply (radix_roundtrip _ _ E)].
Qed.

(** The number of 11-bit groups of an entropy with its checksum byte. *)
Lemma checksummed_digits_length bytes digits :
  valid_entropy_length (List.length bytes) = true ->
  convertRadix2 (map byte_val (bytes ++ calcChecksum sha256 bytes)) 8 11 false
  = Ok digits ->
  List.length digits = (3 * List.length bytes / 4)%nat.
Proof.
  intros Hvalid E.
  destruct (convertRadix2_nopadding 8 11 ltac:(lia) ltac:(lia) ltac:(lia)
              _ _ (bytes_are_digits _) E)
    as (pos & Hpos & _ & _ & Hlen & _).
  rewrite length_map, length_app in Hlen. cbn [List.length calcChecksum] in Hlen.
  apply valid_entropy_length_cases in Hvalid.
  destruct Hvalid as [H | [H | [H | [H | H]]]]; rewrite H in *;
    match goal with
    | |- _ = ?r => let v := eval vm_compute in r in change r with v
    end; lia.
Qed.

(** What a returned mnemonic is made of. *)
Lemma entropyToMnemonic_Ok_inv entropy wordlist m :
  toMnemonic entropy wordlist = Ok m ->
  valid_entropy_length (JS.length entropy) = true /\
  getCoder_accepts wordlist = true /\
  exists digits,
    convertRadix2
      (map byte_val (elements entropy ++ calcChecksum sha256 (elements entropy)))
      8 11 false = Ok digits /\
    m = Uint8Array_of
          (Uint16Array_buffer
             (map (fun word => indexOf wordlist word)
                  (map (get wordlist) digits))).
Proof.
  unfold entropyToMnemonic. rewrite assertEntropy_cases.
  destruct (valid_entropy_length (JS.length entropy)) eqn:Hv; cbn [bind];
    [| discriminate].
  destruct (getCoder_cases sha256 wordlist) as [[Ha Hc] | [Ha (e & Hc & _)]];
    rewrite Hc; cbn [bind]; [| discriminate].
  destruct (checksummed_encodes sha256 (elements entropy) Hv) as [digits E].
  rewrite (bip39_encode_any _ _ _ (getCoder_accepts_length _ Ha) E).
  cbn [bind]. intros H. injection H as <-.
  split; [reflexivity |]. split; [exact Ha |]. exists digits. split; auto.
Qed.

Lemma u16_elements_buffer_length numbers :
  List.length (u16_elements (Uint16Array_buffer numbers)) = List.length numbers.
Proof.
  unfold Uint16Array_buffer.
  induction numbers as [| v l IH]; [reflexivity |].
  cbn [flat_map u16_bytes app u16_elements List.length]. rewrite IH.
  reflexivity.
Qed.

(** X1.  [entropyToMnemonic] returns exactly when the entropy has 16, 20,
    24, 28 or 32 bytes and [getCoder] accepts the wordlist; no entropy
    value and no wordlist content makes the encoding itself fail.  A wrong
    length is reported first, whatever the wordlist; with a right length a
    rejected wordlist is reported by one of the two wordlist errors. *)
Theorem entropyToMnemonic_outcome entropy wordlist :
  succeeds (toMnemonic entropy wordlist)
  = valid_entropy_length (JS.length entropy) && getCoder_accepts wordlist /\
  (valid_entropy_length (JS.length entropy) = false ->
   toMnemonic entropy wordlist = Throw ExpectedBytesLength) /\
  (valid_entropy_length (JS.length entropy) = true ->
   getCoder_accepts wordlist = false ->
   exists err, is_wordlist_error err = true /\
               toMnemonic entropy wordlist = Throw err).
Proof.
  unfold entropyToMnemonic. rewrite assertEntropy_cases.
  destruct (valid_entropy_length (JS.length entropy)) eqn:Hv; cbn [bind andb].
  - destruct (getCoder_cases sha256 wordlist) as [[Ha Hc] | [Ha (e & Hc & He)]];
      rewrite Hc, Ha; cbn [bind].
    + destruct (checksummed_encodes sha256 (elements entropy) Hv) as [digits E].
      rewrite (bip39_encode_any _ _ _ (getCoder_accepts_length _ Ha) E).
      cbn [bind succeeds]. repeat split; discriminate.
    + repeat split; try discriminate. intros _ _. exists e. auto.
  - repeat split; discriminate.
Qed.

(** X2.  A mnemonic returned by [entropyToMnemonic] for an entropy of L
    bytes owns its buffer and holds 3L/4 sixteen-bit words (12, 15, 18, 21
    or 24), that is 3L/2 bytes; over a wordlist without holes every word
    is an index below 2048. *)
Theorem entropyToMnemonic_word_count entropy wordlist m :
  toMnemonic entropy wordlist = Ok m ->
  owns_buffer m /\
  JS.length m = (2 * (3 * JS.length entropy / 4))%nat /\
  List.length (u16_elements (buffer m)) = (3 * JS.length entropy / 4)%nat /\
  valid_word_count (List.length (u16_elements (buffer m))) = true /\
  (dense wordlist = true -> Forall (digit 11) (u16_elements (buffer m))).
Proof.
  intros H.
  destruct (entropyToMnemonic_Ok_inv entropy wordlist m H)
    as (Hv & Ha & digits & E & ->).
  pose proof (checksummed_digits_length _ _ Hv E) as Hn.
  destruct (radix_roundtrip _ _ E) as [Hdig _].
  set (indices := map (fun word => indexOf wordlist word)
                      (map (get wordlist) digits)).
  assert (Hlen : List.length indices = (3 * JS.length entropy / 4)%nat).
  { unfold indices. rewrite !length_map. exact Hn. }
  assert (Hcount : valid_word_count (List.length indices) = true).
  { rewrite Hlen.
    apply valid_entropy_length_cases in Hv.
    destruct Hv as [H' | [H' | [H' | [H' | H']]]]; rewrite H'; reflexivity. }
  split; [split; reflexivity |].
  cbn [buffer Uint8Array_of]. rewrite length_of, u16_bytes_length,
    u16_elements_buffer_length, Hlen.
  split; [reflexivity |]. split; [reflexivity |].
  split; [rewrite <- Hlen; exact Hcount |].
  intros Hdense.
  assert (Hidx : Forall (digit 11) indices).
  { unfold indices. rewrite map_map. apply Forall_map.
    eapply Forall_impl; [| exact Hdig]. intros d [H0 H1].
    pose proof (getCoder_accepts_length _ Ha) as Hl.
    assert (Hd : (Z.to_nat d < List.length wordlist)%nat)
      by (rewrite Hl; change (2 ^ 11) with 2048 in H1; lia).
    destruct (nth_error wordlist (Z.to_nat d)) as [slot |] eqn:En;
      [| apply nth_error_None in En; lia].
    assert (Hin : In slot wordlist) by (eapply nth_error_In; exact En).
    unfold dense in Hdense. rewrite forallb_forall in Hdense.
    specialize (Hdense slot Hin). destruct slot as [v |]; [| discriminate].
    unfold get. destruct (Z.ltb_spec d 0); [lia |]. rewrite En.
    pose proof (indexOf_from_present wordlist v (Z.to_nat d) 0 En) as Hr.
    unfold indexOf, digit. change (2 ^ 11) with 2048. lia. }
  rewrite u16_elements_buffer by (apply digit_11_16; exact Hidx).
  exact Hidx.
Qed.

(** X3.  Which error [getCoder] throws: the first message when the array
    has not 2048 entries or its first entry is not a string (a hole
    included), the second when those hold and some later entry that is
    present is not a string; holes after the first entry are passed over. *)
Theorem getCoder_error_selection wordlist :
  (getCoder sha256 wordlist = Throw WordlistExpected2048
   <-> Nat.eqb (List.length wordlist) 2048
       && typeof_string (get wordlist 0) = false) /\
  (getCoder sha256 wordlist = Throw WordlistNonString
   <-> Nat.eqb (List.length wordlist) 2048
       && typeof_string (get wordlist 0) = true /\
       forallb present_is_text wordlist = false) /\
  (getCoder sha256 wordlist = Ok (bip39_coder sha256 wordlist)
   <-> getCoder_accepts wordlist = true).
Proof.
  unfold getCoder, getCoder_accepts, Array_isArray.
  change (2 ^ 11)%nat with 2048%nat. cbn [negb orb].
  destruct (Nat.eqb (List.length wordlist) 2048); cbn [negb orb andb].
  - destruct (typeof_string (get wordlist 0)); cbn [negb orb andb].
    + rewrite forEach_text, radix2_11_true.
      destruct (forallb present_is_text wordlist); cbn [bind].
      * repeat split; try discriminate; auto. intros [_ H]. discriminate.
      * repeat split; try discriminate; auto.
    + repeat split; try discriminate; auto. intros [H _]. discriminate.
  - repeat split; try discriminate; auto. intros [H _]. discriminate.
Qed.

End MoreCodec.

(* ================================================================== *)
(** * Further properties of decoding *)
(* ================================================================== *)

Section MoreDecode.

Import JS Base.

Variable sha256 : list byte -> list byte.
Variable String_normalize_NFKD : jsstring -> jsstring.

Local Abbreviation toEntropy := (mnemonicToEntropy sha256 String_normalize_NFKD).
Local Abbreviation toMnemonic := (entropyToMnemonic sha256).
Local Abbreviation validate := (validateMnemonic sha256 String_normalize_NFKD).
Local Abbreviation indices_of := (mnemonic_indices String_normalize_NFKD).

(** A successful decode, with the entropy it returns. *)
Lemma decode_indices_Ok_inv indices e :
  Forall (digit 11) indices ->
  decode_indices sha256 indices = Ok e ->
  exists payload c pad,
    e = Uint8Array_of payload /\
    valid_entropy_length (List.length payload) = true /\
    calcChecksum sha256 payload = [c] /\
    0 <= pad < 8 /\
    8 * (Z.of_nat (List.length payload) + 1)
      = 11 * Z.of_nat (List.length indices) + pad /\
    val 8 (map byte_val (payload ++ [c])) = val 11 indices * 2 ^ pad.
Proof.
  intros Hdig H.
  destruct (convertRadix2_padding 11 8 ltac:(lia) ltac:(lia) ltac:(lia)
              indices Hdig)
    as (out & pad & E & Hout & Hpad & Hlen & Hval).
  rewrite (decode_indices_unfold sha256 _ _ E) in H.
  destruct (last_case (map to_byte out)) as [Hnil | (payload & c & Hsplit)];
    rewrite ?Hnil, ?Hsplit in H.
  - rewrite checksum_decode_empty in H. discriminate.
  - rewrite checksum_decode_1 in H.
    destruct (Byte.eqb _ c) eqn:Ec; cbn [bind] in H; [| discriminate].
    apply byte_dec_bl in Ec.
    rewrite assertEntropy_cases, length_of in H.
    destruct (valid_entropy_length (List.length payload)) eqn:Ev;
      cbn [bind] in H; [| discriminate].
    injection H as <-.
    exists payload, c, pad.
    assert (Hout' : out = map byte_val (payload ++ [c])).
    { rewrite <- Hsplit. symmetry. apply digits8_bytes. exact Hout. }
    split; [reflexivity |]. split; [exact Ev |].
    split; [rewrite calcChecksum_singleton, Ec; reflexivity |].
    split; [exact Hpad |]. split.
    + rewrite Hout', length_map, length_app in Hlen. cbn [List.length] in Hlen.
      lia.
    + rewrite <- Hout'. exact Hval.
Qed.

(** Once the words are looked up only two failures are left. *)
Lemma decode_indices_throws indices err :
  Forall (digit 11) indices ->
  decode_indices sha256 indices = Throw err ->
  err = InvalidChecksum \/ err = ExpectedBytesLength.
Proof.
  intros Hdig H.
  destruct (convertRadix2_padding 11 8 ltac:(lia) ltac:(lia) ltac:(lia)
              indices Hdig)
    as (out & pad & E & _).
  rewrite (decode_indices_unfold sha256 _ _ E) in H.
  cbn [checksum decode] in H.
  destruct (same_prefix _ _ _ _); cbn [bind] in H.
  - rewrite assertEntropy_cases in H.
    destruct (valid_entropy_length _); cbn [bind] in H; [discriminate |].
    injection H as <-. auto.
  - injection H as <-. auto.
Qed.

Lemma word_count_bytes n len pad :
  valid_word_count n = true -> 0 <= pad < 8 ->
  Z.of_nat len * 8 = 11 * Z.of_nat n + pad ->
  valid_entropy_length (len - 1) = true.
Proof.
  intros Hn Hpad H. apply valid_word_count_cases in Hn.
  destruct Hn as [-> | [-> | [-> | [-> | ->]]]];
    [ assert (len = 17%nat) by lia | assert (len = 21%nat) by lia
    | assert (len = 25%nat) by lia | assert (len = 29%nat) by lia
    | assert (len = 33%nat) by lia ]; subst len; reflexivity.
Qed.

(** With 12, 15, 18, 21 or 24 words the length assertion cannot fail. *)
Lemma decode_indices_throws_counted indices err :
  Forall (digit 11) indices ->
  valid_word_count (List.length indices) = true ->
  decode_indices sha256 indices = Throw err ->
  err = InvalidChecksum.
Proof.
  intros Hdig Hcount H.
  destruct (convertRadix2_padding 11 8 ltac:(lia) ltac:(lia) ltac:(lia)
              indices Hdig)
    as (out & pad & E & _ & Hpad & Hlen & _).
  rewrite (decode_indices_unfold sha256 _ _ E) in H.
  pose proof (word_count_bytes _ _ _ Hcount Hpad Hlen) as Hv.
  destruct (last_case (map to_byte out)) as [Hnil | (payload & c & Hsplit)].
  - rewrite Hnil, checksum_decode_empty in H. injection H as <-. reflexivity.
  - rewrite Hsplit, checksum_decode_1 in H.
    destruct (Byte.eqb _ c); cbn [bind] in H;
      [| injection H as <-; reflexivity].
    apply (f_equal (@List.length byte)) in Hsplit.
    rewrite length_map, length_app in Hsplit. cbn [List.length] in Hsplit.
    rewrite assertEntropy_cases, length_of in H.
    replace (List.length payload) with (List.length out - 1)%nat in H by lia.
    rewrite Hv in H. discriminate.
Qed.

Lemma toEntropy_Ok_indices m wordlist e :
  toEntropy m wordlist = Ok e ->
  getCoder_accepts wordlist = true /\
  exists indices,
    indices_of m wordlist = Ok indices /\
    Forall (digit 11) indices /\
    decode_indices sha256 indices = Ok e.
Proof.
  intros H.
  assert (Hv : validate m wordlist = true)
    by (unfold validateMnemonic; rewrite H; reflexivity).
  pose proof (validate_accepts sha256 String_normalize_NFKD m wordlist Hv)
    as Hacc.
  split; [exact Hacc |].
  rewrite (toEntropy_indices sha256 String_normalize_NFKD m wordlist Hacc) in H.
  destruct (indices_of m wordlist) as [indices |] eqn:Hi; cbn [bind] in H;
    [| discriminate].
  exists indices. split; [reflexivity |]. split; [| exact H].
  eapply indices_of_digits; eauto.
Qed.


Lemma alphabet_decode_strings wordlist words :
  alphabet_decode wordlist (map VString words)
  = if existsb (fun w => indexOf wordlist (VString w) =? -1) words
    then Throw UnknownLetter
    else Ok (map (fun w => indexOf wordlist (VString w)) words).
Proof.
  unfold alphabet_decode. cbv zeta.
  assert (Hhead :
    match map VString words with
    | [] => Ok tt
    | first :: _ =>
        if negb (typeof_string first) then Throw AlphabetDecodeInput
        else Ok tt
    end = Ok tt) by (destruct words; reflexivity).
  rewrite Hhead. cbn [bind]. clear Hhead.
  induction words as [| w ws IH]; [reflexivity |].
  cbn [map mapM existsb typeof_string negb].
  destruct (indexOf wordlist (VString w) =? -1); cbn [bind orb];
    [reflexivity |].
  rewrite IH. destruct (existsb _ ws); reflexivity.
Qed.

(** X5.  A string mnemonic of 12, 15, 18, 21 or 24 words over a wordlist
    that [getCoder] accepts has three outcomes: the unknown-word error,
    exactly when some word is not an entry of the wordlist; otherwise the
    checksum error or the entropy.  The length assertion that ends
    [mnemonicToEntropy] never fails on a string. *)
Theorem mnemonicToEntropy_string_outcome str wordlist :
  let words := split space (String_normalize_NFKD str) in
  valid_word_count (List.length words) = true ->
  getCoder_accepts wordlist = true ->
  (toEntropy (MString str) wordlist = Throw UnknownLetter
   <-> exists w, In w words /\ indexOf wordlist (VString w) = -1) /\
  (forall err,
     toEntropy (MString str) wordlist = Throw err ->
     err = UnknownLetter \/ err = InvalidChecksum).
Proof.
  intros words Hcount Hacc.
  rewrite (toEntropy_indices sha256 String_normalize_NFKD _ _ Hacc).
  cbn [mnemonic_indices]. rewrite normalize_cases. cbv zeta. fold words.
  rewrite Hcount. cbn [bind norm_words].
  rewrite alphabet_decode_strings.
  destruct (existsb (fun w => indexOf wordlist (VString w) =? -1) words)
    eqn:Ex; cbn [bind].
  - split; [| intros err H; injection H as <-; auto].
    split; [intros _ | reflexivity].
    apply existsb_exists in Ex as (w & Hin & Hw).
    exists w. split; [exact Hin | apply Z.eqb_eq; exact Hw].
  - set (indices := map (fun w => indexOf wordlist (VString w)) words).
    assert (Hdig : Forall (digit 11) indices).
    { apply (alphabet_decode_digits wordlist (map VString words));
        [apply getCoder_accepts_length; exact Hacc |].
      rewrite alphabet_decode_strings, Ex. reflexivity. }
    assert (Hn : valid_word_count (List.length indices) = true)
      by (unfold indices; rewrite length_map; exact Hcount).
    assert (Hthrow : forall err, decode_indices sha256 indices = Throw err ->
                                 err = InvalidChecksum)
      by (intros err; apply decode_indices_throws_counted; assumption).
    split.
    + split.
      * intros H. apply Hthrow in H. discriminate.
      * intros (w & Hin & Hw). exfalso.
        assert (Hex : existsb (fun w => indexOf wordlist (VString w) =? -1)
                        words = true).
        { apply existsb_exists. exists w. split; [exact Hin |].
          apply Z.eqb_eq. exact Hw. }
        congruence.
    + intros err H. right. apply Hthrow. exact H.
Qed.

Lemma get_string_present wordlist n s :
  get wordlist n = VString s ->
  0 <= n /\ nth_error wordlist (Z.to_nat n) = Some (Some (VString s)).
Proof.
  unfold get. destruct (Z.ltb_spec n 0); [discriminate |].
  destruct (nth_error wordlist (Z.to_nat n)) as [[v |] |]; try discriminate.
  intros ->. split; [lia | reflexivity].
Qed.




Lemma pair_ind {A : Type} (P : list A -> Prop) :
  P [] -> (forall x, P [x]) -> (forall x y l, P l -> P (x :: y :: l)) ->
  forall l, P l.
Proof.
  intros H0 H1 H2 l.
  enough (P l /\ forall x, P (x :: l)) by tauto.
  induction l as [| y l [IH1 IH2]]; split; auto.
Qed.

Lemma u16_bytes_elements lo hi :
  u16_bytes (byte_val lo + 256 * byte_val hi) = [lo; hi].
Proof.
  pose proof (byte_val_range lo). pose proof (byte_val_range hi).
  unfold u16_bytes, ToUint16.
  rewrite (Z.mod_small _ (2 ^ 16)) by lia.
  replace ((byte_val lo + 256 * byte_val hi) mod 256) with (byte_val lo)
    by (apply Z.mod_unique with (q := byte_val hi); lia).
  replace ((byte_val lo + 256 * byte_val hi) / 256) with (byte_val hi)
    by (apply Z.div_unique with (r := byte_val lo); lia).
  rewrite !to_byte_val. reflexivity.
Qed.

(** Reading a buffer of even length as 16-bit numbers loses nothing. *)
Lemma Uint16Array_buffer_elements buf :
  Nat.even (List.length buf) = true ->
  Uint16Array_buffer (u16_elements buf) = buf.
Proof.
  induction buf as [| x | lo hi l IH] using pair_ind; intros H;
    [reflexivity | discriminate |].
  cbn [u16_elements]. unfold Uint16Array_buffer in *. cbn [flat_map].
  rewrite u16_bytes_elements, IH by exact H. reflexivity.
Qed.

Section TextsDecode.

Variable texts : list jsstring.
Hypothesis texts_unique : NoDup texts.
Hypothesis texts_length : List.length texts = 2048%nat.

(** Over unique words the lookup of the words at some indices returns
    those indices, and they are below 2048. *)
Lemma alphabet_decode_get_inv ns indices :
  alphabet_decode (map text_slot texts)
    (map (fun i => get (map text_slot texts) i) ns) = Ok indices ->
  indices = ns /\ Forall (digit 11) ns.
Proof.
  unfold alphabet_decode.
  destruct (match map _ ns with [] => _ | _ :: _ => _ end); cbn [bind];
    [| discriminate].
  cbv zeta. intros H. apply mapM_Forall2 in H. revert indices H.
  induction ns as [| n ns IH]; intros indices H; inversion H as [| ? i ? is' Hn Hrest];
    subst; [split; [reflexivity | constructor] |].
  destruct (get (map text_slot texts) n) as [| | b | z | s] eqn:Eg;
    try discriminate.
  destruct (get_string_present _ _ _ Eg) as [Hn0 Hnth].
  assert (Hd : digit 11 n).
  { split; [exact Hn0 |].
    assert (Hlt : (Z.to_nat n < List.length (map text_slot texts))%nat)
      by (apply nth_error_Some; rewrite Hnth; discriminate).
    rewrite length_map, texts_length in Hlt. change (2 ^ 11) with 2048. lia. }
  pose proof (indexOf_get texts texts_unique texts_length n Hd) as Hi.
  rewrite Eg in Hi. cbn [typeof_string negb] in Hn. rewrite Hi in Hn.
  destruct (n =? -1); [discriminate |]. injection Hn as <-.
  destruct (IH _ Hrest) as [-> Hf]. split; [reflexivity | constructor; auto].
Qed.

(** Decoding indices and encoding the entropy gives the indices back. *)
Lemma decode_then_encode indices e :
  Forall (digit 11) indices ->
  decode_indices sha256 indices = Ok e ->
  toMnemonic e (map text_slot texts)
  = Ok (Uint8Array_of (Uint16Array_buffer indices)).
Proof.
  intros Hdig Hd.
  destruct (decode_indices_Ok_inv indices e Hdig Hd)
    as (payload & c & pad & -> & Hv & Hc & Hpad & Hlen & Hval).
  destruct (checksummed_encodes sha256 payload Hv) as [digits E].
  assert (Hsame : digits = indices).
  { rewrite Hc in E.
    destruct (convertRadix2_nopadding 8 11 ltac:(lia) ltac:(lia) ltac:(lia)
                _ _ (bytes_are_digits _) E)
      as (pos & Hpos & _ & Hdig' & Hlen' & Hval').
    rewrite length_map, length_app in Hlen'. cbn [List.length] in Hlen'.
    assert (pos = pad) by lia. subst pos.
    assert (Pp : 0 < 2 ^ pad) by (apply pow2_pos; lia).
    apply val_inj with (w := 11); auto; try lia.
    apply Z.mul_reg_r with (2 ^ pad); [lia |]. rewrite Hval', Hval.
    reflexivity. }
  subst digits.
  unfold entropyToMnemonic. rewrite assertEntropy_cases, length_of, Hv.
  cbn [bind].
  assert (Hacc : getCoder_accepts (map text_slot texts) = true).
  { apply table_of_2048_strings_accepted. unfold table_of_2048_strings.
    rewrite length_map, texts_length. cbn [Nat.eqb andb].
    apply forallb_forall. intros x Hx. apply in_map_iff in Hx as (t & <- & _).
    reflexivity. }
  rewrite (getCoder_accepted sha256 _ Hacc). cbn [bind].
  rewrite elements_of.
  rewrite (bip39_encode sha256 texts texts_length payload indices E).
  cbn [bind]. rewrite (map_indexOf_get texts texts_unique texts_length) by exact Hdig.
  reflexivity.
Qed.

End TextsDecode.

(** X7.  Over a valid wordlist decoding and encoding again returns the
    binary mnemonic of the decoded words: a binary mnemonic that owns its
    buffer comes back byte for byte, a phrase comes back as the binary
    form of its word indices. *)
Theorem entropyToMnemonic_mnemonicToEntropy m wordlist e :
  valid_wordlist wordlist = true ->
  toEntropy m wordlist = Ok e ->
  exists indices,
    indices_of m wordlist = Ok indices /\
    toMnemonic e wordlist = Ok (Uint8Array_of (Uint16Array_buffer indices)) /\
    (forall a, m = MBytes a -> owns_buffer a -> toMnemonic e wordlist = Ok a).
Proof.
  intros Hwl H.
  destruct (toEntropy_Ok_indices m wordlist e H)
    as (_ & indices & Hi & Hdig & Hd).
  destruct (valid_wordlist_texts wordlist Hwl) as (texts & -> & Hnd & Htl & _).
  pose proof (decode_then_encode texts Hnd Htl indices e Hdig Hd) as Henc.
  exists indices. split; [exact Hi |]. split; [exact Henc |].
  intros a -> Hown. rewrite Henc. f_equal.
  cbn [mnemonic_indices] in Hi. unfold Uint16Array_of_buffer in Hi.
  destruct (Nat.even (List.length (buffer a))) eqn:Hev; cbn [bind] in Hi;
    [| discriminate].
  apply (alphabet_decode_get_inv texts Hnd Htl) in Hi as [-> _].
  rewrite Uint16Array_buffer_elements by exact Hev.
  destruct a as [buf off len]. destruct Hown as [Ho Hl]. cbn in Ho, Hl.
  subst off len. reflexivity.
Qed.

End MoreDecode.

(* ================================================================== *)
(** * Phrases, binary mnemonics and generated mnemonics *)
(* ================================================================== *)

Section MoreSeed.

Import JS Base.

Variable sha256 : list byte -> list byte.
Variable String_normalize_NFKD : jsstring -> jsstring.
Variable TextEncoder_encode : jsstring -> list byte.
Variable Hash : Type.
Variable sha512 : Hash.
Variable PBKDF2 : Hash -> list byte -> list byte -> Z -> Z -> list byte.
Variable randomBytes : Z -> list byte.

(** [randomBytes(n)] returns [n] bytes. *)
Hypothesis randomBytes_length : forall n,
  0 <= n -> List.length (randomBytes n) = Z.to_nat n.

Local Abbreviation seedSync :=
  (mnemonicToSeedSync String_normalize_NFKD TextEncoder_encode sha512 PBKDF2).
Local Abbreviation toEntropy := (mnemonicToEntropy sha256 String_normalize_NFKD).
Local Abbreviation toMnemonic := (entropyToMnemonic sha256).
Local Abbreviation validate := (validateMnemonic sha256 String_normalize_NFKD).
Local Abbreviation indices_of := (mnemonic_indices String_normalize_NFKD).
Local Abbreviation generate := (generateMnemonic sha256 randomBytes).







Lemma toMnemonic_invalid_length entropy wordlist :
  valid_entropy_length (JS.length entropy) = false ->
  toMnemonic entropy wordlist = Throw ExpectedBytesLength.
Proof.
  intros H. unfold entropyToMnemonic. rewrite assertEntropy_cases, H.
  reflexivity.
Qed.

Lemma toMnemonic_returns entropy wordlist :
  valid_entropy_length (JS.length entropy) = true ->
  getCoder_accepts wordlist = true ->
  exists m, toMnemonic entropy wordlist = Ok m.
Proof.
  intros Hv Ha. unfold entropyToMnemonic.
  rewrite assertEntropy_cases, Hv, (getCoder_accepted sha256 _ Ha).
  cbn [bind].
  destruct (checksummed_encodes sha256 (elements entropy) Hv) as [digits E].
  rewrite (bip39_encode_any sha256 _ _ _ (getCoder_accepts_length _ Ha) E).
  cbn [bind]. eauto.
Qed.

Lemma generate_passes_guards wordlist strength :
  0 <= strength <= 256 -> strength mod 32 = 0 ->
  generate wordlist strength
  = toMnemonic (Uint8Array_of (randomBytes (strength / 8))) wordlist.
Proof.
  intros Hr Hm. unfold generateMnemonic, assert_number, isSafeInteger.
  destruct (Z.leb_spec (- (2 ^ 53 - 1)) strength); [| lia].
  destruct (Z.leb_spec strength (2 ^ 53 - 1)); [| lia].
  destruct (Z.ltb_spec strength 0); [lia |]. cbn [andb negb orb bind].
  rewrite Z.rem_mod_nonneg, Hm by lia. cbn [Z.eqb negb orb].
  destruct (Z.gtb_spec strength 256); [lia | reflexivity].
Qed.

(** X9.  Given that [randomBytes(n)] returns n bytes and that [getCoder]
    accepts the wordlist, [generateMnemonic] returns a mnemonic exactly
    for the strengths 128, 160, 192, 224 and 256.  The strength test lets
    0, 32, 64 and 96 through: those fail later, in the length assertion
    of [entropyToMnemonic]; a negative strength fails in [assert.number];
    any other strength fails the strength test. *)
Theorem generateMnemonic_outcome wordlist strength :
  getCoder_accepts wordlist = true ->
  (succeeds (generate wordlist strength) = true
   <-> In strength [128; 160; 192; 224; 256]) /\
  (In strength [0; 32; 64; 96] ->
   generate wordlist strength = Throw ExpectedBytesLength) /\
  (strength < 0 -> generate wordlist strength = Throw WrongPositiveInteger) /\
  (0 <= strength <= 2 ^ 53 - 1 ->
   strength mod 32 <> 0 \/ 256 < strength ->
   generate wordlist strength = Throw InvalidEntropyStrength).
Proof.
  intros Hacc.
  assert (Hlen : forall k, 0 <= k <= 8 ->
            JS.length (Uint8Array_of (randomBytes (32 * k / 8)))
            = Z.to_nat (4 * k)).
  { intros k Hk. rewrite length_of, randomBytes_length.
    - f_equal. replace (32 * k) with (4 * k * 8) by lia. apply Z.div_mul. lia.
    - apply Z.div_pos; lia. }
  assert (Hk : forall k, 0 <= k <= 8 ->
            generate wordlist (32 * k)
            = toMnemonic (Uint8Array_of (randomBytes (32 * k / 8))) wordlist).
  { intros k Hk. apply generate_passes_guards; [lia |].
    rewrite Z.mul_comm. apply Z.mod_mul. lia. }
  assert (Hlow : forall k, 0 <= k <= 3 ->
            generate wordlist (32 * k) = Throw ExpectedBytesLength).
  { intros k Hr. rewrite Hk by lia. apply toMnemonic_invalid_length.
    rewrite Hlen by lia.
    assert (C : k = 0 \/ k = 1 \/ k = 2 \/ k = 3) by lia.
    destruct C as [-> | [-> | [-> | ->]]]; reflexivity. }
  assert (Hhigh : forall k, 4 <= k <= 8 ->
            succeeds (generate wordlist (32 * k)) = true).
  { intros k Hr. rewrite Hk by lia.
    destruct (toMnemonic_returns
                (Uint8Array_of (randomBytes (32 * k / 8))) wordlist)
      as [m Hm]; [| exact Hacc | rewrite Hm; reflexivity].
    rewrite Hlen by lia.
    assert (C : k = 4 \/ k = 5 \/ k = 6 \/ k = 7 \/ k = 8) by lia.
    destruct C as [-> | [-> | [-> | [-> | ->]]]]; reflexivity. }
  assert (Hneg : strength < 0 ->
                 generate wordlist strength = Throw WrongPositiveInteger).
  { intros Hs. unfold generateMnemonic, assert_number.
    destruct (Z.ltb_spec strength 0); [| lia].
    rewrite orb_true_r. reflexivity. }
  assert (Hbad : 0 <= strength <= 2 ^ 53 - 1 ->
                 strength mod 32 <> 0 \/ 256 < strength ->
                 generate wordlist strength = Throw InvalidEntropyStrength).
  { intros Hr Hb. unfold generateMnemonic, assert_number, isSafeInteger.
    destruct (Z.leb_spec (- (2 ^ 53 - 1)) strength); [| lia].
    destruct (Z.leb_spec strength (2 ^ 53 - 1)); [| lia].
    destruct (Z.ltb_spec strength 0); [lia |]. cbn [andb negb orb bind].
    rewrite Z.rem_mod_nonneg by lia.
    destruct (Z.eqb_spec (strength mod 32) 0) as [Hz | Hz];
      cbn [negb orb]; [| reflexivity].
    destruct (Z.gtb_spec strength 256); [reflexivity | lia]. }
  split; [| split; [| split]]; auto.
  - split.
    + intros Hs.
      destruct (Z_lt_le_dec strength 0) as [Hn | Hn];
        [rewrite (Hneg Hn) in Hs; discriminate |].
      destruct (Z_le_gt_dec strength 256) as [Hle | Hgt].
      * destruct (Z.eq_dec (strength mod 32) 0) as [Hm | Hm].
        -- assert (Hq : strength = 32 * (strength / 32))
             by (pose proof (Z.div_mod strength 32); lia).
           assert (Hr : 0 <= strength / 32 <= 8)
             by (split; [apply Z.div_pos; lia
                        | apply Z.div_le_upper_bound; lia]).
           destruct (Z_le_gt_dec (strength / 32) 3) as [H3 | H3].
           ++ rewrite Hq, Hlow in Hs by lia. discriminate.
           ++ cbn [In]. lia.
        -- rewrite Hbad in Hs by (auto; lia). discriminate.
      * assert (Hs53 : strength <= 2 ^ 53 - 1 \/ 2 ^ 53 - 1 < strength) by lia.
        destruct Hs53 as [Hs53 | Hs53].
        -- rewrite Hbad in Hs by (auto; lia). discriminate.
        -- exfalso. unfold generateMnemonic, assert_number, isSafeInteger in Hs.
           destruct (Z.leb_spec strength (2 ^ 53 - 1)); [lia |].
           rewrite andb_false_r in Hs. discriminate.
    + cbn [In]. intros [<- | [<- | [<- | [<- | [<- | []]]]]].
      * apply (Hhigh 4). lia.
      * apply (Hhigh 5). lia.
      * apply (Hhigh 6). lia.
      * apply (Hhigh 7). lia.
      * apply (Hhigh 8). lia.
  - cbn [In]. intros [<- | [<- | [<- | [<- | []]]]].
    + apply (Hlow 0). lia.
    + apply (Hlow 1). lia.
    + apply (Hlow 2). lia.
    + apply (Hlow 3). lia.
Qed.

(** X10.  Over a valid wordlist a mnemonic that [generateMnemonic]
    returns is accepted by [validateMnemonic], and [mnemonicToEntropy]
    gives back the very bytes [randomBytes] returned. *)
Theorem generateMnemonic_validates wordlist strength :
  valid_wordlist wordlist = true ->
  In strength [128; 160; 192; 224; 256] ->
  exists m,
    generate wordlist strength = Ok m /\
    owns_buffer m /\
    toEntropy (MBytes m) wordlist
      = Ok (Uint8Array_of (randomBytes (strength / 8))) /\
    validate (MBytes m) wordlist = true.
Proof.
  intros Hwl Hs.
  destruct (valid_wordlist_texts wordlist Hwl) as (texts & -> & Hnd & Htl & _).
  assert (Hg : generate (map text_slot texts) strength
               = toMnemonic (Uint8Array_of (randomBytes (strength / 8)))
                   (map text_slot texts)).
  { apply generate_passes_guards;
      cbn [In] in Hs; destruct Hs as [<- | [<- | [<- | [<- | [<- | []]]]]];
      try lia; reflexivity. }
  assert (Hv : valid_entropy_length
                 (JS.length (Uint8Array_of (randomBytes (strength / 8))))
               = true).
  { rewrite length_of, randomBytes_length;
      cbn [In] in Hs; destruct Hs as [<- | [<- | [<- | [<- | [<- | []]]]]];
      try reflexivity; apply Z.div_pos; lia. }
  destruct (entropy_mnemonic_entropy sha256 String_normalize_NFKD texts Hnd Htl
              _ Hv) as (m & Hm & Hown & Hback).
  rewrite elements_of in Hback.
  exists m. rewrite Hg. repeat split; auto; try apply Hown.
  unfold validateMnemonic. rewrite Hback. reflexivity.
Qed.

End MoreSeed.

(* ================================================================== *)
(** * generateMnemonicQBCK *)
(* ================================================================== *)

Section QbckProofs.

Import JS JSText Base.

Variable sha256 : list byte -> list byte.
Variable String_normalize_NFKD : jsstring -> jsstring.
Variable Math_random : nat -> Q.
Variable fetch_first_result : jsstring -> option jsstring.

(** [Math.random()] returns a number in [0, 1). *)
Hypothesis Math_random_range : forall k,
  (0 <= Math_random k)%Q /\ (Math_random k < 1)%Q.

Local Abbreviation qrng := (getQRNGEntropy fetch_first_result).
Local Abbreviation local_bits := (randomBinary Math_random).
Local Abbreviation qbck :=
  (generateMnemonicQBCK sha256 Math_random fetch_first_result).
Local Abbreviation toEntropy := (mnemonicToEntropy sha256 String_normalize_NFKD).
Local Abbreviation validate := (validateMnemonic sha256 String_normalize_NFKD).

Lemma Math_round_bit (q : Q) :
  (0 <= q)%Q -> (q < 1)%Q ->
  Math_round q = if Qle_bool (1 # 2) q then 1 else 0.
Proof.
  intros H0 H1. unfold Math_round.
  pose proof (Qfloor_le (q + (1 # 2))) as Hle.
  pose proof (Qlt_floor (q + (1 # 2))) as Hlt.
  set (f := Qfloor (q + (1 # 2))) in *.
  assert (E : (inject_Z (f + 1) == inject_Z f + 1)%Q)
    by (rewrite inject_Z_plus; reflexivity).
  rewrite E in Hlt.
  assert (Hf2 : f < 2)
    by (rewrite Zlt_Qlt; change (inject_Z 2) with (2 # 1); lra).
  assert (Hf0 : -1 < f)
    by (rewrite Zlt_Qlt; change (inject_Z (-1)) with (-1 # 1); lra).
  destruct (Qle_bool (1 # 2) q) eqn:Eb.
  - apply Qle_bool_iff in Eb.
    assert (Hf1 : 0 < f)
      by (rewrite Zlt_Qlt; change (inject_Z 0) with (0 # 1); lra).
    lia.
  - assert (Hq : (q < 1 # 2)%Q).
    { apply Qnot_le_lt. intros Hc. apply Qle_bool_iff in Hc. congruence. }
    assert (Hf1 : f < 1)
      by (rewrite Zlt_Qlt; change (inject_Z 1) with (1 # 1); lra).
    lia.
Qed.

Lemma fold_left_append {A : Type} (f : nat -> list A) l : forall init,
  fold_left (fun acc i => acc ++ f i) l init = init ++ flat_map f l.
Proof.
  induction l as [| i l IH]; intros init; cbn [fold_left flat_map].
  - rewrite app_nil_r. reflexivity.
  - rewrite IH, app_assoc. reflexivity.
Qed.

Lemma flat_map_singleton {A B : Type} (g : A -> B) l :
  flat_map (fun i => [g i]) l = map g l.
Proof. induction l; cbn; congruence. Qed.

Lemma randomBinary_map n :
  local_bits n = map (fun k => bit_char (coin Math_random k))
                     (seq 0 (Z.to_nat n)).
Proof.
  unfold randomBinary. rewrite fold_left_append. cbn [app].
  rewrite <- flat_map_singleton. apply flat_map_ext. intros k.
  destruct (Math_random_range k) as [H0 H1].
  rewrite (Math_round_bit _ H0 H1). unfold coin.
  destruct (Qle_bool (1 # 2) (Math_random k)); reflexivity.
Qed.

(** X11.  [randomBinary(n)] returns n code units, each the digit 0 or 1:
    the k-th is 1 exactly when the k-th call of [Math.random()] returned
    at least one half. *)
Theorem randomBinary_bits n :
  List.length (local_bits n) = Z.to_nat n /\
  Forall (fun c => c = 48%N \/ c = 49%N) (local_bits n) /\
  (forall k, (k < Z.to_nat n)%nat ->
     nth_error (local_bits n) k
     = Some (if Qle_bool (1 # 2) (Math_random k) then 49%N else 48%N)).
Proof.
  rewrite randomBinary_map. split; [| split].
  - rewrite length_map, length_seq. reflexivity.
  - apply Forall_map, Forall_forall. intros k _. unfold bit_char.
    destruct (coin Math_random k); auto.
  - intros k Hk. rewrite nth_error_map, nth_error_seq.
    destruct (Nat.ltb_spec k (Z.to_nat n)); [reflexivity | lia].
Qed.

Lemma parseInt_2_charAt s i :
  ToInt32_number (parseInt_2 (charAt s i)) = if bit_at s i then 1 else 0.
Proof.
  unfold charAt, bit_at. destruct (nth_error s i) as [c |]; [| reflexivity].
  destruct (N.eqb_spec c 49) as [-> | H49]; [reflexivity |].
  destruct (N.eqb_spec c 48) as [-> | H48]; [reflexivity |].
  unfold parseInt_2. cbn [trim_start].
  destruct (is_StrWhiteSpaceChar c); [reflexivity |].
  destruct (N.eqb c 45); [reflexivity |].
  destruct (N.eqb c 43); [reflexivity |].
  cbn [parse_binary]. unfold binary_digit.
  destruct (N.eqb_spec c 48); [contradiction |].
  destruct (N.eqb_spec c 49); [contradiction |]. reflexivity.
Qed.

Lemma bitwiseEntropy_map q l :
  bitwiseEntropy_of q l
  = map (fun i => bit_char (xorb (bit_at q i) (bit_at l i)))
        (seq 0 (List.length q)).
Proof.
  unfold bitwiseEntropy_of. rewrite fold_left_append. cbn [app].
  rewrite <- flat_map_singleton. apply flat_map_ext. intros i.
  unfold bxor. rewrite !parseInt_2_charAt.
  destruct (bit_at q i), (bit_at l i); reflexivity.
Qed.

(** X12.  The string [generateMnemonicQBCK] builds from the reply and
    the local string has one digit per code unit of the reply: 1 exactly
    when one of the two strings, not both, holds the digit 1 at that
    place.  A code unit that is no binary digit, or a place beyond the
    end of the local string, counts as 0: there the other string's bit
    passes as it is. *)
Theorem bitwiseEntropy_xor q l :
  List.length (bitwiseEntropy_of q l) = List.length q /\
  (forall i, (i < List.length q)%nat ->
     nth_error (bitwiseEntropy_of q l) i
     = Some (if xorb (bit_at q i) (bit_at l i) then 49%N else 48%N)) /\
  (forall i, (List.length l <= i < List.length q)%nat ->
     nth_error (bitwiseEntropy_of q l) i
     = Some (if bit_at q i then 49%N else 48%N)).
Proof.
  rewrite bitwiseEntropy_map.
  assert (Hnth : forall i, (i < List.length q)%nat ->
            nth_error (map (fun i => bit_char (xorb (bit_at q i) (bit_at l i)))
                           (seq 0 (List.length q))) i
            = Some (if xorb (bit_at q i) (bit_at l i) then 49%N else 48%N)).
  { intros i Hi. rewrite nth_error_map, nth_error_seq.
    destruct (Nat.ltb_spec i (List.length q)); [reflexivity | lia]. }
  split; [rewrite length_map, length_seq; reflexivity |].
  split; [exact Hnth |].
  intros i [Hl Hq]. rewrite Hnth by exact Hq.
  unfold bit_at at 2. replace (nth_error l i) with (@None N)
    by (symmetry; apply nth_error_None; exact Hl).
  rewrite xorb_false_r. reflexivity.
Qed.

Lemma qrng_fulfils_guards strength q :
  qrng strength = Fulfils q ->
  assert_number strength = Ok tt /\
  negb (Z.rem strength 32 =? 0) || (strength >? 256) = false.
Proof.
  unfold getQRNGEntropy.
  destruct (assert_number strength) as [[] |]; [| discriminate].
  destruct (negb (Z.rem strength 32 =? 0) || (strength >? 256));
    [discriminate | auto].
Qed.

Lemma qbck_after_reply wordlist strength q :
  qrng strength = Fulfils q ->
  qbck wordlist strength
  = match match_1_8 (bitwiseEntropy_of q (local_bits strength)) with
    | None => Rejects NullMatch
    | Some groups =>
        of_result
          (entropyToMnemonic sha256
             (Uint8Array_of
                (map (fun g => ToUint8_number (binaryToByte g)) groups))
             wordlist)
    end.
Proof.
  intros Hq. destruct (qrng_fulfils_guards _ _ Hq) as [Ha Hg].
  unfold generateMnemonicQBCK. rewrite Ha, Hg, Hq.
  destruct (match_1_8 _); [rewrite map_map |]; reflexivity.
Qed.

Lemma match_groups_count s : forall cur,
  forallb (fun c => negb (is_line_terminator c)) s = true ->
  (List.length cur <= 8)%nat ->
  (0 < List.length cur + List.length s)%nat ->
  8 * (Z.of_nat (List.length (match_groups cur s)) - 1)
    < Z.of_nat (List.length cur + List.length s)
    <= 8 * Z.of_nat (List.length (match_groups cur s)).
Proof.
  induction s as [| c rest IH]; intros cur Hs Hcur Hpos.
  - cbn [match_groups]. destruct cur; cbn [flush List.length] in *; lia.
  - cbn [forallb] in Hs. apply andb_prop in Hs as [Hc Hrest].
    apply negb_true_iff in Hc. cbn [match_groups]. rewrite Hc.
    destruct (Nat.eqb_spec (List.length cur) 8) as [H8 | H8].
    + specialize (IH [c] Hrest ltac:(cbn; lia) ltac:(cbn; lia)).
      cbn [List.length] in *. lia.
    + specialize (IH (cur ++ [c]) Hrest
                    ltac:(rewrite length_app; cbn; lia)
                    ltac:(rewrite length_app; cbn; lia)).
      rewrite length_app in IH. cbn [List.length] in *. lia.
Qed.

Lemma bit_chars_no_terminator bits :
  forallb (fun c => negb (is_line_terminator c)) (map bit_char bits) = true.
Proof.
  induction bits as [| b l IH]; [reflexivity |].
  cbn [map forallb]. rewrite IH. destruct b; reflexivity.
Qed.

(** X13.  Once the entropy service has replied, the outcome of
    [generateMnemonicQBCK] over an accepted wordlist depends on the
    length of the reply alone: an empty reply rejects with the type error
    of the null match; a reply of n code units gives an entropy of
    ceil(n/8) bytes, so the promise is fulfilled when that is 16, 20, 24,
    28 or 32 and rejected by the length assertion otherwise.  The length
    of the reply is never compared with the requested strength. *)
Theorem generateMnemonicQBCK_outcome wordlist strength q :
  qrng strength = Fulfils q ->
  getCoder_accepts wordlist = true ->
  (q = [] -> qbck wordlist strength = Rejects NullMatch) /\
  (q <> [] ->
   valid_entropy_length ((List.length q + 7) / 8) = true ->
   exists m, qbck wordlist strength = Fulfils m) /\
  (q <> [] ->
   valid_entropy_length ((List.length q + 7) / 8) = false ->
   qbck wordlist strength = Rejects (Thrown ExpectedBytesLength)).
Proof.
  intros Hq Hacc. rewrite (qbck_after_reply wordlist strength q Hq).
  rewrite bitwiseEntropy_map.
  set (bits := map (fun i => xorb (bit_at q i)
                                  (bit_at (local_bits strength) i))
                   (seq 0 (List.length q))).
  replace (map (fun i => bit_char (xorb (bit_at q i)
                                        (bit_at (local_bits strength) i)))
               (seq 0 (List.length q)))
    with (map bit_char bits) by (unfold bits; apply map_map).
  assert (Hlen : List.length (map bit_char bits) = List.length q)
    by (unfold bits; rewrite !length_map, length_seq; reflexivity).
  split.
  { intros ->. reflexivity. }
  assert (Hgroups : q <> [] ->
            exists groups,
              match_1_8 (map bit_char bits) = Some groups /\
              List.length groups = ((List.length q + 7) / 8)%nat).
  { intros Hne.
    assert (Hpos : (0 < List.length q)%nat)
      by (destruct q; [contradiction | cbn; lia]).
    pose proof (match_groups_count (map bit_char bits) []
                  (bit_chars_no_terminator bits) ltac:(cbn; lia)
                  ltac:(cbn [List.length]; lia)) as Hc.
    rewrite Hlen in Hc. cbn [List.length Nat.add] in Hc.
    unfold match_1_8.
    destruct (match_groups [] (map bit_char bits)) as [| g gs] eqn:Eg;
      [cbn [List.length] in Hc; lia |].
    exists (g :: gs). split; [reflexivity |].
    apply Nat2Z.inj. rewrite Nat2Z.inj_div, Nat2Z.inj_add.
    change (Z.of_nat 7) with 7. change (Z.of_nat 8) with 8.
    apply Z.div_unique with
      (r := Z.of_nat (List.length q) + 7
            - 8 * Z.of_nat (List.length (g :: gs))); lia. }
  split; intros Hne Hv; destruct (Hgroups Hne) as (groups & -> & Hn).
  - destruct (toMnemonic_returns sha256
                (Uint8Array_of
                   (map (fun g => ToUint8_number (binaryToByte g)) groups))
                wordlist) as [m Hm]; [| exact Hacc |].
    + rewrite length_of, length_map, Hn. exact Hv.
    + exists m. rewrite Hm. reflexivity.
  - rewrite toMnemonic_invalid_length; [reflexivity |].
    rewrite length_of, length_map, Hn. exact Hv.
Qed.

Lemma match_groups_chunk chunk : forall cur rest,
  forallb (fun c => negb (is_line_terminator c)) chunk = true ->
  (List.length cur + List.length chunk = 8)%nat ->
  match_groups cur (chunk ++ rest) = match_groups (cur ++ chunk) rest.
Proof.
  induction chunk as [| c chunk IH]; intros cur rest Hc Hlen.
  - rewrite app_nil_r. reflexivity.
  - cbn [forallb] in Hc. apply andb_prop in Hc as [Hc Hchunk].
    apply negb_true_iff in Hc. cbn [app match_groups]. rewrite Hc.
    cbn [List.length] in Hlen.
    destruct (Nat.eqb_spec (List.length cur) 8); [lia |].
    rewrite IH by (auto; rewrite length_app; cbn; lia).
    rewrite <- app_assoc. reflexivity.
Qed.

Lemma chunk_byte b7 b6 b5 b4 b3 b2 b1 b0 :
  ToUint8_number
    (binaryToByte (map bit_char [b7; b6; b5; b4; b3; b2; b1; b0]))
  = to_byte (bits_value [b7; b6; b5; b4; b3; b2; b1; b0]).
Proof.
  destruct b7, b6, b5, b4, b3, b2, b1, b0; reflexivity.
Qed.

(** On a string of 8n binary digits the matches are the n groups of
    eight, and their numbers are the bits packed into bytes. *)
Lemma groups_pack_bits n : forall bits,
  List.length bits = (8 * n)%nat ->
  map (fun g => ToUint8_number (binaryToByte g))
      (match_groups [] (map bit_char bits))
  = pack_bits bits /\
  List.length (pack_bits bits) = n.
Proof.
  induction n as [| n IH]; intros bits Hlen.
  - destruct bits; [split; reflexivity | discriminate].
  - destruct bits as [| b7 [| b6 [| b5 [| b4 [| b3 [| b2 [| b1 [| b0 rest]]]]]]]];
      try (cbn in Hlen; lia).
    assert (Hrest : List.length rest = (8 * n)%nat)
      by (cbn [List.length] in Hlen; lia).
    destruct (IH rest Hrest) as [IHm IHl].
    split; [| cbn [pack_bits List.length]; rewrite IHl; reflexivity].
    change (map bit_char (b7 :: b6 :: b5 :: b4 :: b3 :: b2 :: b1 :: b0 :: rest))
      with (map bit_char [b7; b6; b5; b4; b3; b2; b1; b0] ++ map bit_char rest).
    rewrite match_groups_chunk
      by (try apply bit_chars_no_terminator; reflexivity).
    cbn [app pack_bits]. rewrite <- IHm, <- chunk_byte.
    destruct rest as [| b rest']; [reflexivity |].
    cbn [map match_groups].
    replace (is_line_terminator (bit_char b)) with false
      by (destruct b; reflexivity).
    cbn [List.length Nat.eqb app map]. reflexivity.
Qed.

Lemma bit_at_bit_chars bits i :
  bit_at (map bit_char bits) i = nth i bits false.
Proof.
  unfold bit_at. rewrite nth_error_map.
  revert i. induction bits as [| b l IH]; intros [| i]; cbn; auto.
  destruct b; reflexivity.
Qed.

(** X14.  Let the entropy service reply with exactly [strength] binary
    digits, for a strength of 128, 160, 192, 224 or 256, over a valid
    wordlist.  Then [generateMnemonicQBCK] is fulfilled with a mnemonic
    that [validateMnemonic] accepts and whose entropy is, bit for bit
    and most significant bit first, the exclusive or of the reply and of
    the local random bits. *)
Theorem generateMnemonicQBCK_mixes wordlist strength qbits :
  In strength [128; 160; 192; 224; 256] ->
  qrng strength = Fulfils (map bit_char qbits) ->
  List.length qbits = Z.to_nat strength ->
  valid_wordlist wordlist = true ->
  let mixed := map (fun k => xorb (nth k qbits false) (coin Math_random k))
                   (seq 0 (List.length qbits)) in
  exists m,
    qbck wordlist strength = Fulfils m /\
    toEntropy (MBytes m) wordlist = Ok (Uint8Array_of (pack_bits mixed)) /\
    validate (MBytes m) wordlist = true.
Proof.
  intros Hs Hq Hlen Hwl mixed.
  rewrite (qbck_after_reply wordlist strength _ Hq).
  rewrite bitwiseEntropy_map, length_map.
  assert (Hbits : map (fun i => bit_char
                          (xorb (bit_at (map bit_char qbits) i)
                                (bit_at (local_bits strength) i)))
                      (seq 0 (List.length qbits))
                  = map bit_char mixed).
  { unfold mixed. rewrite map_map. apply map_ext_in. intros i Hi.
    apply in_seq in Hi. rewrite bit_at_bit_chars, randomBinary_map.
    do 2 f_equal. unfold bit_at.
    rewrite nth_error_map, nth_error_seq.
    destruct (Nat.ltb_spec i (Z.to_nat strength)); [| lia].
    cbn [option_map Nat.add]. unfold bit_char.
    destruct (coin Math_random i); reflexivity. }
  rewrite Hbits.
  assert (Hn : List.length mixed = (8 * Z.to_nat (strength / 8))%nat).
  { unfold mixed. rewrite length_map, length_seq, Hlen.
    cbn [In] in Hs. destruct Hs as [<- | [<- | [<- | [<- | [<- | []]]]]];
      reflexivity. }
  destruct (groups_pack_bits _ mixed Hn) as [Hpack Hcount].
  assert (Hv : valid_entropy_length (List.length (pack_bits mixed)) = true).
  { rewrite Hcount. cbn [In] in Hs.
    destruct Hs as [<- | [<- | [<- | [<- | [<- | []]]]]]; reflexivity. }
  unfold match_1_8.
  destruct (match_groups [] (map bit_char mixed)) as [| g gs] eqn:Eg.
  { cbn [map] in Hpack. rewrite <- Hpack in Hv. discriminate. }
  rewrite Hpack.
  destruct (valid_wordlist_texts wordlist Hwl) as (texts & -> & Hnd & Htl & _).
  destruct (entropy_mnemonic_entropy sha256 String_normalize_NFKD texts Hnd Htl
              (Uint8Array_of (pack_bits mixed)))
    as (m & Hm & _ & Hback); [rewrite length_of; exact Hv |].
  rewrite elements_of in Hback.
  exists m. rewrite Hm. split; [reflexivity |]. split; [exact Hback |].
  unfold validateMnemonic. rewrite Hback. reflexivity.
Qed.

End QbckProofs.

(* ================================================================== *)
(** * Normal forms and injectivity *)
(* ================================================================== *)

Section MoreNormal.

Import JS Base.

Variable sha256 : list byte -> list byte.
Variable String_normalize_NFKD : jsstring -> jsstring.
Variable TextEncoder_encode : jsstring -> list byte.
Variable Hash : Type.
Variable sha512 : Hash.
Variable PBKDF2 : Hash -> list byte -> list byte -> Z -> Z -> list byte.

Local Abbreviation seedSync :=
  (mnemonicToSeedSync String_normalize_NFKD TextEncoder_encode sha512 PBKDF2).
Local Abbreviation toEntropy := (mnemonicToEntropy sha256 String_normalize_NFKD).
Local Abbreviation toMnemonic := (entropyToMnemonic sha256).
Local Abbreviation validate := (validateMnemonic sha256 String_normalize_NFKD).

(** X15.  Two phrases with the same NFKD form are interchangeable: with
    every wordlist they decode to the same entropy or fail with the same
    error, [validateMnemonic] answers alike, and with passphrases whose
    salts have the same NFKD form they give the same seed. *)
Theorem same_normal_form str1 str2 :
  String_normalize_NFKD str1 = String_normalize_NFKD str2 ->
  (forall wordlist,
     toEntropy (MString str1) wordlist = toEntropy (MString str2) wordlist /\
     validate (MString str1) wordlist = validate (MString str2) wordlist) /\
  (forall wordlist wordlist' passphrase1 passphrase2,
     String_normalize_NFKD (lit "mnemonic" ++ passphrase1)
     = String_normalize_NFKD (lit "mnemonic" ++ passphrase2) ->
     seedSync (MString str1) wordlist passphrase1
     = seedSync (MString str2) wordlist' passphrase2).
Proof.
  intros Hnf.
  assert (Hn : normalize String_normalize_NFKD str1
               = normalize String_normalize_NFKD str2)
    by (rewrite !normalize_cases; cbv zeta; rewrite Hnf; reflexivity).
  split.
  - intros wordlist.
    assert (He : toEntropy (MString str1) wordlist
                 = toEntropy (MString str2) wordlist)
      by (rewrite !toEntropy_string, Hn; reflexivity).
    split; [exact He |]. unfold validateMnemonic. rewrite He. reflexivity.
  - intros wordlist wordlist' passphrase1 passphrase2 Hp.
    unfold mnemonicToSeedSync, salt, nfkd.
    cbn [encodeMnemonicForSeedDerivation]. rewrite Hn, Hp. reflexivity.
Qed.

(** X16.  Over a valid wordlist [entropyToMnemonic] is injective: two
    entropies that are given the same mnemonic have the same bytes. *)
Theorem entropyToMnemonic_injective entropy1 entropy2 wordlist m :
  valid_wordlist wordlist = true ->
  toMnemonic entropy1 wordlist = Ok m ->
  toMnemonic entropy2 wordlist = Ok m ->
  elements entropy1 = elements entropy2.
Proof.
  intros Hwl H1 H2.
  destruct (entropyToMnemonic_Ok_inv sha256 _ _ _ H1) as (Hv1 & _).
  destruct (entropyToMnemonic_Ok_inv sha256 _ _ _ H2) as (Hv2 & _).
  destruct (valid_wordlist_texts wordlist Hwl) as (texts & -> & Hnd & Htl & _).
  destruct (entropy_mnemonic_entropy sha256 (fun s => s) texts Hnd Htl
              entropy1 Hv1) as (m1 & Hm1 & _ & Hb1).
  destruct (entropy_mnemonic_entropy sha256 (fun s => s) texts Hnd Htl
              entropy2 Hv2) as (m2 & Hm2 & _ & Hb2).
  rewrite H1 in Hm1. rewrite H2 in Hm2.
  injection Hm1 as <-. injection Hm2 as <-.
  rewrite Hb1 in Hb2. injection Hb2 as Hb. exact Hb.
Qed.

End MoreNormal.

(* ================================================================== *)
(** * The further properties at concrete inputs *)
(* ================================================================== *)

Section MoreWitnesses.

Import JS JSText Base.

Lemma example_randomBytes_length : forall n,
  0 <= n -> List.length (example_randomBytes n) = Z.to_nat n.
Proof. intros n _. apply repeat_length. Qed.

Lemma example_Math_random_range : forall k,
  (0 <= example_Math_random k)%Q /\ (example_Math_random k < 1)%Q.
Proof.
  intros k. unfold example_Math_random.
  destruct (Nat.even k); split; unfold Qle, Qlt; cbn; lia.
Qed.

Lemma entropyToMnemonic_word_count_witness :
  entropyToMnemonic example_sha256 example_entropy example_wordlist
    = Ok example_binary /\
  JS.length example_binary = 24%nat /\
  List.length (u16_elements (buffer example_binary)) = 12%nat.
Proof.
  assert (H : entropyToMnemonic example_sha256 example_entropy example_wordlist
              = Ok example_binary) by (vm_compute; reflexivity).
  split; [exact H |].
  pose proof (entropyToMnemonic_word_count example_sha256 example_entropy
                example_wordlist example_binary H) as (_ & Hl & Hn & _).
  split; [exact Hl | exact Hn].
Defined.


Lemma mnemonicToEntropy_string_outcome_witness :
  valid_word_count
    (List.length (split space (example_NFKD example_phrase))) = true /\
  getCoder_accepts example_wordlist = true /\
  forall err,
    mnemonicToEntropy example_sha256 example_NFKD (MString example_phrase)
      example_wordlist = Throw err ->
    err = UnknownLetter \/ err = InvalidChecksum.
Proof.
  assert (Hc : valid_word_count
                 (List.length (split space (example_NFKD example_phrase)))
               = true) by (vm_compute; reflexivity).
  assert (Ha : getCoder_accepts example_wordlist = true)
    by (vm_compute; reflexivity).
  split; [exact Hc |]. split; [exact Ha |].
  exact (proj2 (mnemonicToEntropy_string_outcome example_sha256 example_NFKD
                  example_phrase example_wordlist Hc Ha)).
Defined.


Lemma entropyToMnemonic_mnemonicToEntropy_witness :
  valid_wordlist example_wordlist = true /\
  mnemonicToEntropy example_sha256 example_NFKD (MBytes example_binary)
    example_wordlist = Ok (Uint8Array_of (elements example_entropy)) /\
  entropyToMnemonic example_sha256 (Uint8Array_of (elements example_entropy))
    example_wordlist = Ok example_binary.
Proof.
  assert (Hw : valid_wordlist example_wordlist = true)
    by (vm_compute; reflexivity).
  assert (H : mnemonicToEntropy example_sha256 example_NFKD
                (MBytes example_binary) example_wordlist
              = Ok (Uint8Array_of (elements example_entropy)))
    by (vm_compute; reflexivity).
  split; [exact Hw |]. split; [exact H |].
  destruct (entropyToMnemonic_mnemonicToEntropy example_sha256 example_NFKD
              (MBytes example_binary) example_wordlist _ Hw H)
    as (indices & _ & _ & Hback).
  apply (Hback example_binary eq_refl). split; reflexivity.
Defined.


Lemma generateMnemonic_outcome_witness :
  getCoder_accepts example_wordlist = true /\
  generateMnemonic example_sha256 example_randomBytes example_wordlist 64
    = Throw ExpectedBytesLength /\
  succeeds (generateMnemonic example_sha256 example_randomBytes
              example_wordlist 128) = true.
Proof.
  assert (Ha : getCoder_accepts example_wordlist = true)
    by (vm_compute; reflexivity).
  split; [exact Ha |].
  destruct (generateMnemonic_outcome example_sha256 example_randomBytes
              example_randomBytes_length example_wordlist 64 Ha)
    as (_ & Hlow & _).
  destruct (generateMnemonic_outcome example_sha256 example_randomBytes
              example_randomBytes_length example_wordlist 128 Ha)
    as (Hok & _).
  split.
  - apply Hlow. right; right; left; reflexivity.
  - apply Hok. left; reflexivity.
Defined.

Lemma generateMnemonic_validates_witness :
  valid_wordlist example_wordlist = true /\
  exists m,
    generateMnemonic example_sha256 example_randomBytes example_wordlist 128
      = Ok m /\
    owns_buffer m /\
    mnemonicToEntropy example_sha256 example_NFKD (MBytes m) example_wordlist
      = Ok (Uint8Array_of (example_randomBytes (128 / 8))) /\
    validateMnemonic example_sha256 example_NFKD (MBytes m) example_wordlist
      = true.
Proof.
  assert (Hw : valid_wordlist example_wordlist = true)
    by (vm_compute; reflexivity).
  split; [exact Hw |].
  apply (generateMnemonic_validates example_sha256 example_NFKD
           example_randomBytes example_randomBytes_length example_wordlist 128
           Hw).
  left; reflexivity.
Defined.

Lemma randomBinary_bits_witness :
  List.length (randomBinary example_Math_random 10) = 10%nat.
Proof.
  exact (proj1 (randomBinary_bits example_Math_random
                  example_Math_random_range 10)).
Defined.

Lemma generateMnemonicQBCK_outcome_witness :
  getQRNGEntropy example_fetch 64 = Fulfils (map bit_char example_reply_bits)
  /\ getCoder_accepts example_wordlist = true
  /\ exists m,
       generateMnemonicQBCK example_sha256 example_Math_random example_fetch
         example_wordlist 64 = Fulfils m.
Proof.
  assert (Hq : getQRNGEntropy example_fetch 64
               = Fulfils (map bit_char example_reply_bits))
    by (vm_compute; reflexivity).
  assert (Ha : getCoder_accepts example_wordlist = true)
    by (vm_compute; reflexivity).
  split; [exact Hq |]. split; [exact Ha |].
  destruct (generateMnemonicQBCK_outcome example_sha256 example_Math_random
              example_fetch example_wordlist 64 _ Hq Ha) as (_ & Hok & _).
  apply Hok; [discriminate | vm_compute; reflexivity].
Defined.

Lemma generateMnemonicQBCK_mixes_witness :
  getQRNGEntropy example_fetch 128 = Fulfils (map bit_char example_reply_bits)
  /\ valid_wordlist example_wordlist = true
  /\ exists m,
       generateMnemonicQBCK example_sha256 example_Math_random example_fetch
         example_wordlist 128 = Fulfils m /\
       mnemonicToEntropy example_sha256 example_NFKD (MBytes m)
         example_wordlist
       = Ok (Uint8Array_of (repeat (to_byte 170) 16)).
Proof.
  assert (Hq : getQRNGEntropy example_fetch 128
               = Fulfils (map bit_char example_reply_bits))
    by (vm_compute; reflexivity).
  assert (Hw : valid_wordlist example_wordlist = true)
    by (vm_compute; reflexivity).
  split; [exact Hq |]. split; [exact Hw |].
  destruct (generateMnemonicQBCK_mixes example_sha256 example_NFKD
              example_Math_random example_fetch example_Math_random_range
              example_wordlist 128 example_reply_bits
              (or_introl eq_refl) Hq eq_refl Hw)
    as (m & Hm & He & _).
  exists m. split; [exact Hm |]. rewrite He. vm_compute. reflexivity.
Defined.

Lemma same_normal_form_witness :
  example_NFKD_nbsp example_phrase_nbsp = example_NFKD_nbsp example_phrase /\
  validateMnemonic example_sha256 example_NFKD_nbsp
    (MString example_phrase_nbsp) example_wordlist
  = validateMnemonic example_sha256 example_NFKD_nbsp
      (MString example_phrase) example_wordlist.
Proof.
  assert (H : example_NFKD_nbsp example_phrase_nbsp
              = example_NFKD_nbsp example_phrase) by (vm_compute; reflexivity).
  split; [exact H |].
  exact (proj2 (proj1 (same_normal_form example_sha256 example_NFKD_nbsp
                         example_utf8 unit tt example_PBKDF2
                         example_phrase_nbsp example_phrase H)
                  example_wordlist)).
Defined.

Lemma entropyToMnemonic_injective_witness :
  valid_wordlist example_wordlist = true /\
  entropyToMnemonic example_sha256 example_entropy example_wordlist
    = Ok example_binary /\
  entropyToMnemonic example_sha256 example_entropy_window example_wordlist
    = Ok example_binary /\
  elements example_entropy = elements example_entropy_window.
Proof.
  assert (Hw : valid_wordlist example_wordlist = true)
    by (vm_compute; reflexivity).
  assert (H1 : entropyToMnemonic example_sha256 example_entropy
                 example_wordlist = Ok example_binary)
    by (vm_compute; reflexivity).
  assert (H2 : entropyToMnemonic example_sha256 example_entropy_window
                 example_wordlist = Ok example_binary)
    by (vm_compute; reflexivity).
  split; [exact Hw |]. split; [exact H1 |]. split; [exact H2 |].
  exact (entropyToMnemonic_injective example_sha256 example_entropy
           example_entropy_window example_wordlist example_binary Hw H1 H2).
Defined.

End MoreWitnesses.
